(** * Task lifecycle managers of the A2A sample agents

    A shallow embedding of
      - agents/hiagent/task_manager.py         (module [HiAgent]),
      - agents/hiagent/CustomerDetails_agent.py (module [CustomerAgent]),
      - agents/crewai/data_analysis_task_manager.py (module [CrewAI]),
      - agents/crewai/data_analysis_agent.py   (module [DataAnalysis]),
      - the agent classes of agents/langgraph  (module [LangGraph]),
    and the properties of the task life cycle that hold of them.

    Python objects are records, the task dictionaries are [gmap string _],
    and the [async] methods are computations in a small state-and-exception
    monad: a raised exception keeps every mutation made before it, as in
    Python.  Every object put in a task dictionary is either freshly built
    or written back right after it was mutated, so dictionaries of values
    behave as the dictionaries of references of the source. *)

From Stdlib Require Import ZArith Lia.
From stdpp Require Import base option list sorting gmap strings.

Local Open Scope string_scope.
Local Open Scope list_scope.
Local Open Scope nat_scope.

(** ** Exceptions and the effect monad *)

(** The exception classes the managers and the agent raise.  [AdapterError]
    stands for whatever exception the backend of an agent raises. *)
Inductive Exn :=
| ValueError (msg : string)
| IndexError (msg : string)
| TimeoutError (msg : string)
| NotImplementedError (msg : string)
| AttributeError (msg : string)
| KeyError (msg : string)
| AdapterError (msg : string).

(** [str(e)] *)
Definition str (e : Exn) : string :=
  match e with
  | ValueError m | IndexError m | TimeoutError m
  | NotImplementedError m | AttributeError m | AdapterError m => m
  | KeyError m => "'" +:+ m +:+ "'"
  end.

Inductive Outcome (A : Type) :=
| Ok (a : A)
| Raise (e : Exn).
Arguments Ok {A} a.
Arguments Raise {A} e.

(** A computation over a mutable world [W]. *)
Definition Eff (W A : Type) : Type := W → Outcome A * W.

Definition ret {W A} (a : A) : Eff W A := λ w, (Ok a, w).

Definition bind {W A B} (m : Eff W A) (k : A → Eff W B) : Eff W B :=
  λ w, match m w with
       | (Ok a, w') => k a w'
       | (Raise e, w') => (Raise e, w')
       end.

Definition raise {W A} (e : Exn) : Eff W A := λ w, (Raise e, w).

(** [try: m except Exception as e: handler e] *)
Definition try_except {W A} (m : Eff W A) (handler : Exn → Eff W A) : Eff W A :=
  λ w, match m w with
       | (Ok a, w') => (Ok a, w')
       | (Raise e, w') => handler e w'
       end.

(** A pure step that may raise. *)
Definition lift {W A} (r : Outcome A) : Eff W A := λ w, (r, w).

Declare Scope eff_scope.
Delimit Scope eff_scope with eff.
Notation "x <- m ;; k" := (bind m (λ x, k))
  (at level 100, m at next level, right associativity) : eff_scope.
Notation "m ;;; k" := (bind m (λ _, k))
  (at level 100, right associativity) : eff_scope.
Local Open Scope eff_scope.

(** [for x in xs: body x] *)
Fixpoint for_each {W A} (xs : list A) (body : A → Eff W unit) : Eff W unit :=
  match xs with
  | [] => ret tt
  | x :: xs' => body x ;;; for_each xs' body
  end.

(** ** common.types *)

Module Types.

(** Modelled from the spec: the enumeration [TaskState] of common.types is
    not among the sources; the spec lists the states submitted, working,
    input-required, completed and error. *)
Inductive TaskState :=
| SUBMITTED | WORKING | INPUT_REQUIRED | COMPLETED | ERROR.

#[global] Instance TaskState_eq_dec : EqDecision TaskState.
Proof. solve_decision. Defined.

(** Modelled from the spec: the part classes of common.types are not among
    the sources; a part is a text part or a part of another kind (what
    [isinstance(part, TextPart)] tells apart). *)
Inductive Part :=
| TextPart (text : string)
| NonTextPart (kind : string).

#[global] Instance Part_eq_dec : EqDecision Part.
Proof. solve_decision. Defined.

Record Message := mkMessage {
  role : string;
  parts : list Part
}.

#[global] Instance Message_eq_dec : EqDecision Message.
Proof. solve_decision. Defined.

Record TaskStatus := mkTaskStatus {
  state : TaskState;
  status_message : option Message   (* TaskStatus.message *)
}.

#[global] Instance TaskStatus_eq_dec : EqDecision TaskStatus.
Proof. solve_decision. Defined.

Record Artifact := mkArtifact {
  artifact_parts : list Part         (* Artifact.parts *)
}.

#[global] Instance Artifact_eq_dec : EqDecision Artifact.
Proof. solve_decision. Defined.

Record TaskSendParams := mkTaskSendParams {
  params_id : string;                          (* .id *)
  params_sessionId : string;                   (* .sessionId *)
  params_message : Message;                    (* .message *)
  acceptedOutputModes : option (list string)
}.

Record Task := mkTask {
  task_id : string;                            (* .id *)
  task_sessionId : option string;              (* .sessionId *)
  task_status : TaskStatus;                    (* .status *)
  task_message : option Message;               (* .message *)
  task_artifacts : option (list Artifact)      (* .artifacts *)
}.

Definition set_status (t : Task) (s : TaskStatus) : Task :=
  mkTask (task_id t) (task_sessionId t) s (task_message t) (task_artifacts t).

Definition set_artifacts (t : Task) (a : list Artifact) : Task :=
  mkTask (task_id t) (task_sessionId t) (task_status t) (task_message t) (Some a).

Inductive StreamEvent :=
| TaskStatusUpdateEvent (id : string) (status : TaskStatus) (final : bool)
| TaskArtifactUpdateEvent (id : string) (artifact : Artifact).

Inductive JSONRPCError :=
| InternalError (message : string)
| IncompatibleModalityError.

(** A JSON-RPC response: [result] or [error] is set. *)
Inductive Response (R : Type) :=
| Result (id : string) (result : R)
| Error (id : string) (error : JSONRPCError).
Arguments Result {R} id result.
Arguments Error {R} id error.

Definition SendTaskResponse := Response Task.
Definition SendTaskStreamingResponse := Response StreamEvent.

Record Request := mkRequest {
  request_id : string;          (* request.id *)
  params : TaskSendParams       (* request.params *)
}.

(** Modelled from the spec: [new_incompatible_types_error] of
    common.server.utils is not among the sources; the spec calls what it
    builds an IncompatibleModalityError result object. *)
Definition new_incompatible_types_error {R} (request_id : string) : Response R :=
  Error request_id IncompatibleModalityError.

(** One notification of the agent: the dictionary with the keys
    "is_task_complete", "require_user_input" (optional) and "content". *)
Record Item := mkItem {
  is_task_complete : bool;
  require_user_input : option bool;
  content : string
}.

(** [item.get("require_user_input", False)] *)
Definition get_require_user_input (item : Item) : bool :=
  default false (require_user_input item).

(** [task_send_params.message.parts[0]], then the text of a text part. *)
Definition _get_user_query (task_send_params : TaskSendParams) : Outcome string :=
  match parts (params_message task_send_params) with
  | [] => Raise (IndexError "list index out of range")
  | part :: _ =>
      match part with
      | TextPart text => Ok text
      | NonTextPart _ => Raise (ValueError "Only text parts are supported")
      end
  end.

End Types.
Export Types.

(** ** agents/hiagent/task_manager.py *)

Module HiAgent.

(** What [agent.stream(query, session_id)] produces when it is iterated to
    its end: the notifications in order, then the exception that ends the
    iteration, if one does. *)
Record AgentStream := mkAgentStream {
  items : list Item;
  failure : option Exn
}.

(** The agent the manager holds in [self.agent]. *)
Record Agent := mkAgent {
  invoke : string → string → Outcome Item;
  stream : string → string → AgentStream
}.

(** [HiAgentCustomerAgent.SUPPORTED_CONTENT_TYPES] *)
Definition SUPPORTED_CONTENT_TYPES : list string := ["text"; "text/plain"].

(** What a run does, in order: the writes of [self._tasks], the
    notifications taken from the agent's stream, the responses yielded to
    the subscriber and the calls of [agent.invoke]. *)
Inductive Effect :=
| EUpsert (task : Task)
| ENext (item : Item)
| EYield (response : SendTaskStreamingResponse)
| EInvoke (query session_id : string).

Record World := mkWorld {
  _tasks : gmap string Task;     (* self._tasks *)
  log : list Effect
}.

Definition emit (e : Effect) : Eff World unit :=
  λ w, (Ok tt, mkWorld (_tasks w) (log w ++ [e])).

(** [yield response] *)
Definition yield (response : SendTaskStreamingResponse) : Eff World unit :=
  emit (EYield response).

Definition get_task (task_id : string) : Eff World (option Task) :=
  λ w, (Ok (_tasks w !! task_id), w).

(** The argument of [upsert_task]: [Task | TaskSendParams]. *)
Inductive TaskOrParams :=
| IsTask (task : Task)
| IsParams (task : TaskSendParams).

(** The [Task] built from a [TaskSendParams]. *)
Definition task_of_params (task : TaskSendParams) : Task :=
  {| task_id := params_id task;
     task_sessionId := Some (params_sessionId task);
     task_status := mkTaskStatus WORKING None;
     task_message := Some (params_message task);
     task_artifacts := None |}.

Definition upsert_task (task : TaskOrParams) : Eff World unit :=
  let task := match task with
              | IsParams p => task_of_params p
              | IsTask t => t
              end in
  λ w, (Ok tt, mkWorld (<[task_id task := task]> (_tasks w))
                       (log w ++ [EUpsert task])).

(** [if artifacts:] holds of a list that is neither [None] nor empty. *)
Definition truthy {A} (l : option (list A)) : bool :=
  match l with
  | Some (_ :: _) => true
  | _ => false
  end.

Definition _update_store (task_id : string) (status : TaskStatus)
    (artifacts : option (list Artifact)) : Eff World Task :=
  task <- get_task task_id ;;
  match task with
  | None => raise (ValueError ("Task " +:+ task_id +:+ " not found"))
  | Some task =>
      let task := set_status task status in
      let task := if truthy artifacts
                  then set_artifacts task (default [] artifacts)
                  else task in
      upsert_task (IsTask task) ;;;
      ret task
  end.

Section Manager.

(** [are_modalities_compatible] of common.server.utils is not among the
    sources: the manager is verified for every such test. *)
Variable are_modalities_compatible : option (list string) → list string → bool.

Variable agent : Agent.

(** The state a notification puts the task in, and [end_stream]. *)
Definition item_state (item : Item) : TaskState * bool :=
  if negb (is_task_complete item) && negb (get_require_user_input item)
  then (WORKING, false)
  else if get_require_user_input item
  then (INPUT_REQUIRED, true)
  else (COMPLETED, true).

(** The body of the [async for] of [_stream_generator]. *)
Definition stream_body (request : Request) (item : Item) : Eff World unit :=
  let task_send_params := params request in
  let is_task_complete := is_task_complete item in
  let parts := [TextPart (content item)] in
  let '(task_state, end_stream) := item_state item in
  let message := mkMessage "agent" parts in
  let task_status := mkTaskStatus task_state (Some message) in
  let artifacts := if is_task_complete then Some [mkArtifact parts] else None in
  latest_task <- _update_store (params_id task_send_params) task_status artifacts ;;
  yield (Result (request_id request)
           (TaskStatusUpdateEvent (params_id task_send_params) task_status end_stream)) ;;;
  if truthy artifacts
  then for_each (default [] artifacts) (λ artifact,
         yield (Result (request_id request)
                  (TaskArtifactUpdateEvent (params_id task_send_params) artifact)))
  else ret tt.

(** [async for item in s: body item]: each notification is taken, then the
    body runs on it; an exception of the agent ends the iteration. *)
Definition async_for (s : AgentStream) (body : Item → Eff World unit) : Eff World unit :=
  for_each (items s) (λ item, emit (ENext item) ;;; body item) ;;;
  match failure s with
  | Some e => raise e
  | None => ret tt
  end.

(** The generator, run until it is exhausted. *)
Definition _stream_generator (request : Request) : Eff World unit :=
  let task_send_params := params request in
  query <- lift (_get_user_query task_send_params) ;;
  try_except
    (async_for (stream agent query (params_sessionId task_send_params))
       (stream_body request))
    (λ e, yield (Error (request_id request) (InternalError (str e)))).

Definition _validate_request {R} (request : Request) : option (Response R) :=
  let task_send_params := params request in
  if negb (are_modalities_compatible (acceptedOutputModes task_send_params)
             SUPPORTED_CONTENT_TYPES)
  then Some (new_incompatible_types_error (request_id request))
  else None.

Definition on_send_task (request : Request) : Eff World SendTaskResponse :=
  match _validate_request request with
  | Some error => ret error
  | None =>
      upsert_task (IsParams (params request)) ;;;
      let task_send_params := params request in
      query <- lift (_get_user_query task_send_params) ;;
      try_except
        (emit (EInvoke query (params_sessionId task_send_params)) ;;;
         result <- lift (invoke agent query (params_sessionId task_send_params)) ;;
         let parts := [TextPart (content result)] in
         let task_state :=
           if get_require_user_input result then INPUT_REQUIRED else COMPLETED in
         task <- _update_store (params_id task_send_params)
                   (mkTaskStatus task_state (Some (mkMessage "agent" parts)))
                   (Some [mkArtifact parts]) ;;
         ret (Result (request_id request) task))
        (λ e, raise (ValueError ("Error invoking agent: " +:+ str e)))
  end.

(** What [on_send_task_subscribe] returns: the error response, or the
    generator, which runs when the subscriber iterates it. *)
Inductive Subscription :=
| Rejected (error : SendTaskStreamingResponse)
| Generator (run : Eff World unit).

Definition on_send_task_subscribe (request : Request) : Eff World Subscription :=
  match _validate_request request with
  | Some error => ret (Rejected error)
  | None =>
      upsert_task (IsParams (params request)) ;;;
      ret (Generator (_stream_generator request))
  end.

(** The subscriber: it awaits [on_send_task_subscribe] and, when it gets
    the generator, iterates it to its end. *)
Definition subscribe_and_drain (request : Request) : Eff World unit :=
  sub <- on_send_task_subscribe request ;;
  match sub with
  | Rejected error => ret tt
  | Generator run => run
  end.

End Manager.

(** *** Reading a log *)

Definition responses (l : list Effect) : list SendTaskStreamingResponse :=
  omap (λ e, match e with EYield r => Some r | _ => None end) l.

Definition writes (l : list Effect) : list Task :=
  omap (λ e, match e with EUpsert t => Some t | _ => None end) l.

Definition consumed (l : list Effect) : list Item :=
  omap (λ e, match e with ENext i => Some i | _ => None end) l.

(** The states [get_task task_id] observes, write after write. *)
Definition observed_states (task_id : string) (l : list Effect) : list TaskState :=
  omap (λ e, match e with
             | EUpsert t => if decide (Types.task_id t = task_id)
                            then Some (state (task_status t)) else None
             | _ => None
             end) l.

Definition is_final (r : SendTaskStreamingResponse) : bool :=
  match r with
  | Result _ (TaskStatusUpdateEvent _ _ final) => final
  | _ => false
  end.

Definition is_artifact_update (r : SendTaskStreamingResponse) : bool :=
  match r with
  | Result _ (TaskArtifactUpdateEvent _ _) => true
  | _ => false
  end.

Definition empty_world : World := mkWorld ∅ [].

(** *** What a stream of notifications leads to *)

(** The status, the stored task and the responses a notification leads to. *)
Definition item_status (item : Item) : TaskStatus :=
  mkTaskStatus (fst (item_state item))
    (Some (mkMessage "agent" [TextPart (content item)])).

Definition item_task (t : Task) (item : Item) : Task :=
  let t' := set_status t (item_status item) in
  if is_task_complete item
  then set_artifacts t' [mkArtifact [TextPart (content item)]]
  else t'.

Definition status_update (request : Request) (item : Item) : SendTaskStreamingResponse :=
  Result (request_id request)
    (TaskStatusUpdateEvent (params_id (params request)) (item_status item)
       (snd (item_state item))).

Definition artifact_update (request : Request) (item : Item) : SendTaskStreamingResponse :=
  Result (request_id request)
    (TaskArtifactUpdateEvent (params_id (params request))
       (mkArtifact [TextPart (content item)])).

Definition item_responses (request : Request) (item : Item) : list SendTaskStreamingResponse :=
  status_update request item ::
  (if is_task_complete item then [artifact_update request item] else []).

Definition item_effects (request : Request) (t : Task) (item : Item) : list Effect :=
  ENext item :: EUpsert (item_task t item) :: map EYield (item_responses request item).

Fixpoint stream_effects (request : Request) (t : Task) (l : list Item) : list Effect :=
  match l with
  | [] => []
  | item :: l' => item_effects request t item ++ stream_effects request (item_task t item) l'
  end.

Definition failure_effects (request : Request) (f : option Exn) : list Effect :=
  match f with
  | Some e => [EYield (Error (request_id request) (InternalError (str e)))]
  | None => []
  end.

(** The task a synchronous send stores for the result of [agent.invoke]. *)
Definition invoke_task (t : Task) (result : Item) : Task :=
  set_artifacts
    (set_status t
       (mkTaskStatus
          (if get_require_user_input result then INPUT_REQUIRED else COMPLETED)
          (Some (mkMessage "agent" [TextPart (content result)]))))
    [mkArtifact [TextPart (content result)]].

(** A notification is terminal when one of its two flags is set. *)
Definition terminal (item : Item) : bool :=
  is_task_complete item || get_require_user_input item.

(** The notifications up to and including the first terminal one. *)
Fixpoint first_terminal_prefix (l : list Item) : list Item :=
  match l with
  | [] => []
  | item :: l' => item :: (if terminal item then [] else first_terminal_prefix l')
  end.

(** No notification comes after a terminal one. *)
Definition ends_at_first_terminal (l : list Item) : Prop :=
  first_terminal_prefix l = l.

(** The order of the states: submitted < working < the states that end a
    turn, which are not ordered among themselves. *)
Definition rank (s : TaskState) : nat :=
  match s with
  | SUBMITTED => 0
  | WORKING => 1
  | INPUT_REQUIRED | COMPLETED | ERROR => 2
  end.

Definition state_le (a b : TaskState) : Prop := a = b ∨ rank a < rank b.

End HiAgent.

(** ** JSON values as Python reads them *)

Module Json.

(** What [json.loads] and [response.json()] return.  A number is known by
    whether it is zero and by the text Python prints for it; a dictionary
    keeps its entries in order, under distinct keys. *)
#[local] Set Warnings "-register-all".
Inductive JSON :=
| JNull
| JBool (b : bool)
| JNum (zero : bool) (text : string)
| JStr (s : string)
| JArr (l : list JSON)
| JObj (fields : list (string * JSON)).

(** The value of a key of a dictionary. *)
Fixpoint assoc (key : string) (fields : list (string * JSON)) : option JSON :=
  match fields with
  | [] => None
  | (k, v) :: rest => if decide (k = key) then Some v else assoc key rest
  end.

(** [bool(v)] *)
Definition truthy (v : JSON) : bool :=
  match v with
  | JNull => false
  | JBool b => b
  | JNum zero _ => negb zero
  | JStr s => negb (bool_decide (s = ""))
  | JArr l => match l with [] => false | _ => true end
  | JObj fields => match fields with [] => false | _ => true end
  end.

(** [v == s] for a string [s] *)
Definition is_str (v : JSON) (s : string) : bool :=
  match v with
  | JStr s' => bool_decide (s' = s)
  | _ => false
  end.

(** [needle in s] for two strings *)
Definition contains (s needle : string) : bool :=
  match String.index 0 needle s with
  | Some _ => true
  | None => false
  end.

(** [v.get(key)]: [None] stands for the [AttributeError] of a value that
    is not a dictionary; a missing key gives Python's [None]. *)
Definition py_get (v : JSON) (key : string) : option JSON :=
  match v with
  | JObj fields => Some (default JNull (assoc key fields))
  | _ => None
  end.

(** [key in v]: [None] stands for the [TypeError] of a value that is not
    iterable. *)
Definition py_in (key : string) (v : JSON) : option bool :=
  match v with
  | JObj fields =>
      Some (match assoc key fields with Some _ => true | None => false end)
  | JArr l => Some (existsb (λ x, is_str x key) l)
  | JStr s => Some (contains s key)
  | JNull | JBool _ | JNum _ _ => None
  end.

(** [v[key]] for a string [key]: [None] stands for the [KeyError] of a
    dictionary without the key and for the [TypeError] of any other
    value. *)
Definition py_getitem (v : JSON) (key : string) : option JSON :=
  match v with
  | JObj fields => assoc key fields
  | _ => None
  end.

End Json.

(** ** agents/hiagent/CustomerDetails_agent.py *)

Module CustomerAgent.
Import Json.

(** The dictionary [_query_process] returns: it has a "status" (the method
    raises when the key is missing) next to its other entries. *)
Record ProcessData := mkProcessData {
  status : string;
  entries : list (string * string)
}.

Definition newline : string := String (Ascii.ascii_of_nat 10) EmptyString.

(** What a wait does, in order: the round trips of [_query_process] and
    the calls of [asyncio.sleep]. *)
Inductive Effect :=
| EQuery (run_id : string)
| ESleep (seconds : nat).

Definition is_query (e : Effect) : bool :=
  match e with EQuery _ => true | ESleep _ => false end.

(** The number of round trips in a log, and the time slept. *)
Definition polls (l : list Effect) : nat := length (filter (λ e, is_query e = true) l).

Definition slept (l : list Effect) : nat :=
  foldr (λ e n, match e with ESleep s => s + n | EQuery _ => n end) 0 l.

(** [n] rounds of a query that finds the process running and the wait
    that follows it. *)
Fixpoint rounds (run_id : string) (n : nat) : list Effect :=
  match n with
  | O => []
  | S n' => EQuery run_id :: ESleep 2 :: rounds run_id n'
  end.

Section Wait.

(** The remote service: what the round trip for a run answers, given the
    number of round trips made before it. *)
Variable service : string → nat → Outcome ProcessData.

Definition _query_process (run_id : string) : Eff (list Effect) ProcessData :=
  λ l, (service run_id (polls l), l ++ [EQuery run_id]).

Definition sleep (seconds : nat) : Eff (list Effect) unit :=
  λ l, (Ok tt, l ++ [ESleep seconds]).

(** [for attempt in range(n): ...], then the [raise] after the loop. *)
Fixpoint wait_loop (run_id : string) (n : nat) : Eff (list Effect) ProcessData :=
  match n with
  | O => raise (TimeoutError "Process did not complete within the expected time")
  | S n' =>
      process_data <- _query_process run_id ;;
      if decide (status process_data = "success") then ret process_data
      else if decide (status process_data = "processing")
      then sleep 2 ;;; wait_loop run_id n'
      else raise (ValueError ("Process failed with status: " +:+ status process_data))
  end.

(** The answer to the round trip number [i] says the process is running. *)
Definition processing_at (run_id : string) (i : nat) : Prop :=
  ∃ d, service run_id i = Ok d ∧ status d = "processing".

(** [range] of a negative number is empty. *)
Definition _wait_for_process (run_id : string) (max_retries : Z) : Eff (list Effect) ProcessData :=
  wait_loop run_id (Z.to_nat max_retries).

(** The HTTP call of [_run_workflow]: the JSON value of the response, or
    the exception it raises. *)
Variable _run_workflow : string → Outcome JSON.

(** [json.loads]: [None] stands for [JSONDecodeError]. *)
Variable json_loads : string → option JSON.

(** The dictionary of a process as the JSON value it is. *)
Variable as_json : ProcessData → JSON.

(** [''.join(filter(str.isdigit, query.strip()))]: Python's test of
    Unicode digits is not modelled. *)
Variable digits_of : string → string.

(** [repr] of a list or a dictionary. *)
Variable repr : JSON → string.

(** [str(v)], which is how an f-string prints [v]. *)
Definition py_str (v : JSON) : string :=
  match v with
  | JStr s => s
  | JNum _ text => text
  | JBool true => "True"
  | JBool false => "False"
  | JNull => "None"
  | JArr _ | JObj _ => repr v
  end.

(** What one turn of the loop of [_extract_customer_details] comes to:
    a [return], the next turn, or an exception. *)
Inductive Scan :=
| Found (v : JSON)
| Next
| Failed.

(** [json.loads(node.get("output", "{}"))]; [None] when it raises. *)
Definition node_output (fields : list (string * JSON)) : option JSON :=
  match default (JStr "{}") (assoc "output" fields) with
  | JStr output_str => json_loads output_str
  | _ => None
  end.

(** The body of the loop over [nodes.items()]. *)
Definition scan_node (node : JSON) : Scan :=
  match py_get node "nodeType" with
  | None => Failed
  | Some nodeType =>
      match node with
      | JObj fields =>
          if is_str nodeType "end" then
            match node_output fields with
            | None => Failed
            | Some output_data =>
                match py_in "output" output_data with
                | None => Failed
                | Some false => Next
                | Some true =>
                    match py_getitem output_data "output" with
                    | Some v => Found v
                    | None => Failed
                    end
                end
            end
          else if is_str nodeType "http_request" then
            match node_output fields with
            | None => Failed
            | Some output_data =>
                match py_in "data" output_data with
                | None => Failed
                | Some false => Next
                | Some true =>
                    match py_getitem output_data "data" with
                    | None => Failed
                    | Some data =>
                        match py_in "customer" data with
                        | None => Failed
                        | Some false => Next
                        | Some true =>
                            match py_getitem data "customer" with
                            | Some v => Found v
                            | None => Failed
                            end
                        end
                    end
                end
            end
          else Next
      | _ => Failed
      end
  end.

(** The loop; Python's [None] is [JNull]. *)
Fixpoint scan_nodes (nodes : list (string * JSON)) : JSON :=
  match nodes with
  | [] => JNull
  | (node_id, node) :: rest =>
      match scan_node node with
      | Found v => v
      | Next => scan_nodes rest
      | Failed => JNull
      end
  end.

(** Every exception is caught and gives [None]. *)
Definition _extract_customer_details (process_data : JSON) : JSON :=
  match process_data with
  | JObj ((_ :: _) as fields) =>
      match default (JObj []) (assoc "nodes" fields) with
      | JObj ((_ :: _) as nodes) => scan_nodes nodes
      | _ => JNull
      end
  | _ => JNull
  end.

(** The notification of the handler that closes the body of [stream]. *)
Definition error_occurred : Item :=
  mkItem true None
    "An error occurred while processing your request. Please try again.".

(** The end of [stream], once the process data is there. *)
Definition report (process_data : ProcessData) : Item :=
  let customer_details := _extract_customer_details (as_json process_data) in
  if negb (truthy customer_details)
  then mkItem true None "No customer details found."
  else
    match py_getitem customer_details "firstName",
          py_getitem customer_details "lastName",
          py_getitem customer_details "email" with
    | Some firstName, Some lastName, Some email =>
        mkItem true None
          ("Customer Details:" +:+ newline +:+
           "First Name: " +:+ py_str firstName +:+ newline +:+
           "Last Name: " +:+ py_str lastName +:+ newline +:+
           "Email: " +:+ py_str email)
    | _, _, _ => error_occurred
    end.

(** [stream], iterated to its end: every path ends with one notification
    that has a flag set, and no exception leaves the generator.  The
    service is asked for a run by the text of its id. *)
Definition stream (query session_id : string) : HiAgent.AgentStream :=
  let customer_id := digits_of query in
  if decide (customer_id = "")
  then HiAgent.mkAgentStream
         [mkItem false (Some true)
            "Please provide a valid customer ID (numbers only)."] None
  else
    let looking :=
      mkItem false None
        ("Looking up details for customer ID: " +:+ customer_id +:+ "...") in
    match _run_workflow customer_id with
    | Raise _ => HiAgent.mkAgentStream [looking; error_occurred] None
    | Ok workflow_response =>
        match py_get workflow_response "runId" with
        | None => HiAgent.mkAgentStream [looking; error_occurred] None
        | Some run_id =>
            if negb (truthy run_id)
            then HiAgent.mkAgentStream
                   [looking;
                    mkItem true None
                      "Failed to initiate workflow. Invalid response from server."]
                   None
            else
              let processing :=
                mkItem false None "Processing customer information..." in
              let last :=
                match (_wait_for_process (py_str run_id) 5 []).1 with
                | Ok process_data => report process_data
                | Raise (TimeoutError _ as e) | Raise (ValueError _ as e) =>
                    mkItem true None
                      ("Failed to retrieve customer details: " +:+ str e)
                | Raise _ => error_occurred
                end in
              HiAgent.mkAgentStream [looking; processing; last] None
        end
    end.

(** The agent as the manager sees it: the class has no method [invoke]. *)
Definition agent : HiAgent.Agent :=
  HiAgent.mkAgent
    (λ _ _, Raise (AttributeError
                     "'HiAgentCustomerAgent' object has no attribute 'invoke'"))
    stream.

End Wait.

End CustomerAgent.

(** ** agents/crewai/data_analysis_task_manager.py *)

Module CrewAI.

(** [AnalysisResult] of data_analysis_agent.py. *)
Record AnalysisResult := mkAnalysisResult {
  result_content : string      (* .content *)
}.

Record Agent := mkAgent {
  invoke : string → Outcome AnalysisResult
}.

(** [DataAnalysisAgent.SUPPORTED_CONTENT_TYPES] *)
Definition SUPPORTED_CONTENT_TYPES : list string := ["text"].

(** [upsert_task] stores the object it is given under its [id]: a [Task],
    or the [TaskSendParams] of a request. *)
Inductive Stored :=
| StoredTask (task : Task)
| StoredParams (task : TaskSendParams).

Definition stored_id (s : Stored) : string :=
  match s with
  | StoredTask t => task_id t
  | StoredParams p => params_id p
  end.

(** The world is [self.tasks]. *)
Definition get_task (task_id : string) : Eff (gmap string Stored) (option Stored) :=
  λ tasks, (Ok (tasks !! task_id), tasks).

Definition upsert_task (task : Stored) : Eff (gmap string Stored) unit :=
  λ tasks, (Ok tt, <[stored_id task := task]> tasks).

Section Manager.

Variable are_modalities_compatible : option (list string) → list string → bool.

Variable agent : Agent.

Definition _stream_generator (request : Request) : Eff (gmap string Stored) unit :=
  raise (NotImplementedError "Not implemented").

Definition on_send_task_subscribe (request : Request) : Eff (gmap string Stored) unit :=
  raise (NotImplementedError "Streaming subscriptions are not supported").

Definition _invoke (request : Request) : Eff (gmap string Stored) SendTaskResponse :=
  let task_send_params := params request in
  query <- lift (_get_user_query task_send_params) ;;
  try_except
    (result <- lift (invoke agent query) ;;
     let task :=
       {| task_id := params_id task_send_params;
          task_sessionId := None;
          task_message :=
            Some (mkMessage "agent" [TextPart (result_content result)]);
          task_status := mkTaskStatus COMPLETED None;
          task_artifacts :=
            Some [mkArtifact [TextPart (result_content result)]] |} in
     upsert_task (StoredTask task) ;;;
     ret (Result (request_id request) task))
    (λ e,
     let error_task :=
       {| task_id := params_id task_send_params;
          task_sessionId := None;
          task_message :=
            Some (mkMessage "agent" [TextPart ("Error: " +:+ str e)]);
          task_status := mkTaskStatus ERROR None;
          task_artifacts := Some [] |} in
     upsert_task (StoredTask error_task) ;;;
     raise (ValueError ("Error invoking agent: " +:+ str e))).

Definition on_send_task (request : Request) : Eff (gmap string Stored) SendTaskResponse :=
  if negb (are_modalities_compatible (acceptedOutputModes (params request))
             SUPPORTED_CONTENT_TYPES)
  then ret (new_incompatible_types_error (request_id request))
  else
    let task_send_params := params request in
    upsert_task (StoredParams task_send_params) ;;;
    _invoke request.

End Manager.

(** The two tasks [_invoke] builds. *)
Definition completed_task (p : TaskSendParams) (result : AnalysisResult) : Task :=
  {| task_id := params_id p;
     task_sessionId := None;
     task_message := Some (mkMessage "agent" [TextPart (result_content result)]);
     task_status := mkTaskStatus COMPLETED None;
     task_artifacts := Some [mkArtifact [TextPart (result_content result)]] |}.

Definition error_task (p : TaskSendParams) (e : Exn) : Task :=
  {| task_id := params_id p;
     task_sessionId := None;
     task_message := Some (mkMessage "agent" [TextPart ("Error: " +:+ str e)]);
     task_status := mkTaskStatus ERROR None;
     task_artifacts := Some [] |}.

End CrewAI.

(** ** agents/crewai/data_analysis_agent.py *)

Module DataAnalysis.
Import Json.

(** What [requests.post] returns: the status code and what
    [response.json()] gives. *)
Record HttpResponse := mkHttpResponse {
  status_code : Z;
  json : Outcome JSON
}.

Definition sales (name total_sales : string) : JSON :=
  JObj [("name", JStr name); ("total_sales", JNum false total_sales)].

(** The data [fetch_store_data] returns when the article is there. *)
Definition STORE_DATA : JSON :=
  JObj
    [("customers",
      JArr [sales "Samwise" "1363.83"; sales "Legolas" "264.19";
            sales "Gandalf" "716.61"; sales "Sherlock" "1099.51";
            sales "Aragon" "1158.57"]);
     ("products",
      JArr [sales "Yoga Mat Purple" "786.75"; sales "Meditation Class" "1720.16";
            sales "Water bottle" "2048.75"; sales "Yoga top" "894.31";
            sales "Yoga Blocks Set" "528.92"]);
     ("analytics",
      JObj [("average_order_value", JNum false "131.82");
            ("top_product", JStr "Water bottle");
            ("top_customer", JStr "Samwise");
            ("total_analyzed_sales", JNum false "5978.89")])].

(** [analyst_crew.kickoff] returns a [CrewOutput]; [raw] is its text. *)
Record CrewOutput := mkCrewOutput {
  raw : string
}.

Section Agent.

(** The call of [requests.post]. *)
Variable post : Outcome HttpResponse.

(** [json.dumps(store_data, indent=2)] *)
Variable json_dumps : JSON → string.

(** [litellm.completion(...).choices[0].message.content] for a prompt. *)
Variable completion : string → Outcome string.

(** [self.analyst_crew.kickoff({"user_query": query})] *)
Variable kickoff : string → Outcome (option CrewOutput).

(** Every exception is caught and gives the empty dictionary. *)
Definition fetch_store_data : JSON :=
  match post with
  | Raise _ => JObj []
  | Ok response =>
      if decide (status_code response = 200%Z) then
        match json response with
        | Raise _ => JObj []
        | Ok data =>
            match py_in "data" data with
            | None => JObj []
            | Some false => JObj []
            | Some true =>
                match py_getitem data "data" with
                | None => JObj []
                | Some inner =>
                    match py_in "article" inner with
                    | None => JObj []
                    | Some false => JObj []
                    | Some true =>
                        match py_getitem inner "article" with
                        | None => JObj []
                        | Some article =>
                            match py_getitem article "body" with
                            | None => JObj []
                            | Some article_content => STORE_DATA
                            end
                        end
                    end
                end
            end
        end
      else JObj []
  end.

Definition indent : string := "    ".

Definition analyze_sales_data (query : string) : Outcome string :=
  if decide (query = "") then Raise (ValueError "Query cannot be empty")
  else
    let store_data := fetch_store_data in
    let prompt :=
      CustomerAgent.newline +:+
      indent +:+ "Here is the store data:" +:+ CustomerAgent.newline +:+
      indent +:+ json_dumps store_data +:+ CustomerAgent.newline +:+
      indent +:+ CustomerAgent.newline +:+
      indent +:+ "Based on this data, please analyze and answer the following question:" +:+ CustomerAgent.newline +:+
      indent +:+ query +:+ CustomerAgent.newline +:+
      indent +:+ CustomerAgent.newline +:+
      indent +:+ "Please provide specific insights and reference actual data points in your analysis." +:+ CustomerAgent.newline +:+
      indent in
    match completion prompt with
    | Ok content => Ok content
    | Raise e => Ok ("Error analyzing data: " +:+ str e)
    end.

(** [DataAnalysisAgent.invoke] *)
Definition invoke (query : string) : Outcome CrewAI.AnalysisResult :=
  match kickoff query with
  | Ok response =>
      match response with
      | None =>
          Ok (CrewAI.mkAnalysisResult
                "Sorry, I couldn't analyze the data at this moment. Please try again.")
      | Some response =>
          if decide (raw response = "")
          then Ok (CrewAI.mkAnalysisResult
                     "Sorry, I couldn't analyze the data at this moment. Please try again.")
          else Ok (CrewAI.mkAnalysisResult (raw response))
      end
  | Raise e =>
      Ok (CrewAI.mkAnalysisResult ("Error performing analysis: " +:+ str e))
  end.

(** The agent as the manager holds it. *)
Definition agent : CrewAI.Agent := CrewAI.mkAgent invoke.

End Agent.

End DataAnalysis.

(** ** agents/langgraph: customerID_agent.py, getorder_agent.py and
    shopify_agent.py, whose agent classes have the same three methods *)

Module LangGraph.

(** [ResponseFormat.status] *)
Inductive Status :=
| input_required
| completed
| error.

Record ResponseFormat := mkResponseFormat {
  status : Status;
  message : string
}.

(** A message of the graph, as [stream] tells them apart. *)
Inductive GraphMessage :=
| AIMessage (tool_calls : list string)
| ToolMessage
| OtherMessage.

Section Agent.

(** [self.graph.get_state(config).values.get('structured_response')]:
    the [ResponseFormat] found there, [None] for anything else. *)
Variable structured_response : Outcome (option ResponseFormat).

(** What [self.graph.stream(inputs, config, stream_mode="values")] yields
    ([item["messages"]] of each value), and the exception that ends it,
    if one does. *)
Variable graph_values : list (list GraphMessage).
Variable graph_failure : option Exn.

(** [self.graph.invoke(...)] *)
Variable graph_invoke : Outcome unit.

Definition unable : Item :=
  mkItem false (Some true)
    "We are unable to process your request at the moment. Please try again.".

Definition get_agent_response : Outcome Item :=
  match structured_response with
  | Raise e => Raise e
  | Ok (Some structured_response) =>
      match status structured_response with
      | input_required =>
          Ok (mkItem false (Some true) (message structured_response))
      | error =>
          Ok (mkItem false (Some true) (message structured_response))
      | completed =>
          Ok (mkItem true (Some false) (message structured_response))
      end
  | Ok None => Ok unable
  end.

Definition invoke (query sessionId : string) : Outcome Item :=
  match graph_invoke with
  | Raise e => Raise e
  | Ok _ => get_agent_response
  end.

(** The notification of one value of the graph, if it has one;
    [item["messages"][-1]] raises on an empty list. *)
Definition progress (messages : list GraphMessage) : Outcome (option Item) :=
  match last messages with
  | None => Raise (IndexError "list index out of range")
  | Some (AIMessage (_ :: _)) =>
      Ok (Some (mkItem false (Some false) "Looking up customer information..."))
  | Some ToolMessage =>
      Ok (Some (mkItem false (Some false) "Processing customer data..."))
  | Some _ => Ok None
  end.

(** The loop of [stream] over the values, then its last [yield]. *)
Fixpoint stream_from (values : list (list GraphMessage)) : HiAgent.AgentStream :=
  match values with
  | [] =>
      match graph_failure with
      | Some e => HiAgent.mkAgentStream [] (Some e)
      | None =>
          match get_agent_response with
          | Ok item => HiAgent.mkAgentStream [item] None
          | Raise e => HiAgent.mkAgentStream [] (Some e)
          end
      end
  | messages :: values' =>
      match progress messages with
      | Raise e => HiAgent.mkAgentStream [] (Some e)
      | Ok notification =>
          let s := stream_from values' in
          HiAgent.mkAgentStream
            (match notification with
             | Some item => item :: HiAgent.items s
             | None => HiAgent.items s
             end)
            (HiAgent.failure s)
      end
  end.

Definition stream (query sessionId : string) : HiAgent.AgentStream :=
  stream_from graph_values.

End Agent.

End LangGraph.

(** ** Notions the properties of the managers use *)

Module Notions.

(** Every task of a store is stored under its own id. *)
Definition keyed_by_id (tasks : gmap string Task) : Prop :=
  ∀ key t, tasks !! key = Some t → task_id t = key.

(** The artifact a notification carries. *)
Definition item_artifact (item : Item) : Artifact :=
  mkArtifact [TextPart (content item)].

End Notions.

(** ** Concrete requests and agents *)

Module Fixtures.

(** Modelled from the spec: [are_modalities_compatible] of
    common.server.utils is not among the sources; by the spec a request
    is incompatible when its accepted output modes exclude the supported
    content types.  It instantiates the test on concrete runs. *)
Definition modalities_overlap (accepted : option (list string)) (supported : list string) : bool :=
  match accepted with
  | None => true
  | Some modes => bool_decide (Exists (λ m, m ∈ supported) modes)
  end.

Definition request_with (parts : list Part) (modes : list string) : Request :=
  mkRequest "req-1"
    (mkTaskSendParams "task-1" "session-1" (mkMessage "user" parts) (Some modes)).

Definition text_request : Request := request_with [TextPart "customer 42"] ["text"].
Definition image_request : Request := request_with [TextPart "customer 42"] ["image/png"].
Definition mixed_request : Request :=
  request_with [TextPart "customer 42"; NonTextPart "file"] ["text"].
Definition file_request : Request := request_with [NonTextPart "file"] ["text"].
Definition empty_request : Request := request_with [] ["text"].
Definition empty_image_request : Request := request_with [] ["image/png"].

Definition looking_up : Item := mkItem false None "looking up...".
Definition done : Item := mkItem true None "done".
Definition ask_id : Item := mkItem false (Some true) "Please provide a valid customer ID".

(** An agent that answers every query alike. *)
Definition hi_agent (answer : Outcome Item) (l : list Item) (f : option Exn) : HiAgent.Agent :=
  HiAgent.mkAgent (λ _ _, answer) (λ _ _, HiAgent.mkAgentStream l f).

Definition unreachable : Exn := AdapterError "backend unreachable".

Definition crew_agent (answer : Outcome CrewAI.AnalysisResult) : CrewAI.Agent :=
  CrewAI.mkAgent (λ _, answer).

(** A remote service that answers [status] from the [n]-th round trip on
    and "processing" before. *)
Definition service_after (n : nat) (status : string) (run_id : string) (k : nat)
    : Outcome CustomerAgent.ProcessData :=
  Ok (CustomerAgent.mkProcessData (if decide (k < n) then "processing" else status) []).

(** The poller stub that reports "processing" on every call. *)
Definition always_processing (run_id : string) (k : nat) : Outcome CustomerAgent.ProcessData :=
  Ok (CustomerAgent.mkProcessData "processing" []).

End Fixtures.

(** ** More concrete values *)

Module Samples.
Import Json.

Definition customer : JSON :=
  JObj [("firstName", JStr "Sam"); ("lastName", JStr "Gamgee");
        ("email", JStr "sam@example.com")].

(** A decoder that knows two texts. *)
Definition loads (text : string) : option JSON :=
  if decide (text = "end-output") then Some (JObj [("output", customer)])
  else if decide (text = "http-output")
  then Some (JObj [("data", JObj [("customer", customer)])])
  else if decide (text = "{}") then Some (JObj [])
  else None.

Definition start_node : JSON := JObj [("nodeType", JStr "start")].
Definition end_node : JSON :=
  JObj [("nodeType", JStr "end"); ("output", JStr "end-output")].
Definition http_node : JSON :=
  JObj [("nodeType", JStr "http_request"); ("output", JStr "http-output")].
Definition broken_node : JSON :=
  JObj [("nodeType", JStr "http_request"); ("output", JStr "<html>")].

Definition process_of (nodes : list (string * JSON)) : JSON :=
  JObj [("status", JStr "success"); ("nodes", JObj nodes)].

(** The workflow service: it starts run "run-1" for every customer. *)
Definition started (customer_id : string) : Outcome JSON :=
  Ok (JObj [("runId", JStr "run-1")]).

(** The digits of two queries. *)
Definition digits (query : string) : string :=
  if decide (query = "customer 42") then "42" else "".

Definition no_repr (v : JSON) : string := "".

End Samples.

(** ** The properties as the spec words them *)

Module Spec.

(** A request is rejected when the call raises. *)
Definition rejected {W A} (r : Outcome A * W) : Prop := ∃ e, r.1 = Raise e.

Definition has_non_text_part (request : Request) : Prop :=
  ∃ kind, NonTextPart kind ∈ parts (params_message (params request)).

(** What the spec says a [get_task] sees after the initial upsert. *)
Definition observes_submitted (tasks : gmap string Task) (id : string) : Prop :=
  ∃ t, tasks !! id = Some t ∧ state (task_status t) = SUBMITTED.

(** What the spec says the store holds after a failed synchronous send: a
    task in state error whose status message carries the message of the
    exception. *)
Definition status_carries (status : TaskStatus) (text : string) : Prop :=
  ∃ m, status_message status = Some m ∧ TextPart text ∈ parts m.

Definition hi_holds_error (tasks : gmap string Task) (id : string) (e : Exn) : Prop :=
  ∃ t, tasks !! id = Some t ∧ state (task_status t) = ERROR ∧
       status_carries (task_status t) (str e).

Definition crew_holds_error (tasks : gmap string CrewAI.Stored) (id : string) (e : Exn) : Prop :=
  ∃ t, tasks !! id = Some (CrewAI.StoredTask t) ∧ state (task_status t) = ERROR ∧
       status_carries (task_status t) (str e).

(** What the spec says the subscriber receives last when the stream fails. *)
Definition ends_with_error_status (rs : list SendTaskStreamingResponse) : Prop :=
  ∃ rid tid status,
    last rs = Some (Result rid (TaskStatusUpdateEvent tid status true)) ∧
    state status = ERROR.

Definition is_error_status (r : SendTaskStreamingResponse) : Prop :=
  ∃ rid tid status final,
    r = Result rid (TaskStatusUpdateEvent tid status final) ∧ state status = ERROR.

(** What the spec says of the responses of a streaming send: one of them
    is final, and it is the last. *)
Definition single_final_last (rs : list SendTaskStreamingResponse) : Prop :=
  length (filter (λ r, HiAgent.is_final r = true) rs) = 1 ∧
  ∃ r, last rs = Some r ∧ HiAgent.is_final r = true.

(** What the spec says of the states a [get_task] observes. *)
Definition never_regresses (states : list TaskState) : Prop :=
  StronglySorted HiAgent.state_le states.

(** What the spec says of the notifications the core takes. *)
Definition stops_at_first_terminal (s : HiAgent.AgentStream) (log : list HiAgent.Effect) : Prop :=
  HiAgent.consumed log = HiAgent.first_terminal_prefix (HiAgent.items s).

End Spec.

(** * Properties *)

Lemma bind_run {W A B} (m : Eff W A) (k : A → Eff W B) w :
  bind m k w = match m w with
               | (Ok a, w') => k a w'
               | (Raise e, w') => (Raise e, w')
               end.
Proof. reflexivity. Qed.

(** ** What one run of the streaming generator does *)

Module HiAgentRun.
Import HiAgent.

Lemma item_task_id t item : task_id (item_task t item) = task_id t.
Proof. unfold item_task. by destruct (is_task_complete item). Qed.

Lemma item_state_terminal item : snd (item_state item) = terminal item.
Proof.
  unfold item_state, terminal.
  by destruct (is_task_complete item), (get_require_user_input item).
Qed.

Lemma item_state_working item :
  terminal item = false → fst (item_state item) = WORKING.
Proof.
  unfold item_state, terminal.
  by destruct (is_task_complete item), (get_require_user_input item).
Qed.

Lemma item_state_not_error item : fst (item_state item) ≠ ERROR.
Proof.
  unfold item_state.
  by destruct (is_task_complete item), (get_require_user_input item).
Qed.

Section Run.

Variable are_modalities_compatible : option (list string) → list string → bool.
Variable agent : Agent.

(** One turn of the loop, from a store that holds the task. *)
Lemma stream_body_run request t item w :
  _tasks w !! params_id (params request) = Some t →
  task_id t = params_id (params request) →
  (emit (ENext item) ;;; stream_body request item) w =
  (Ok tt, mkWorld (<[params_id (params request) := item_task t item]> (_tasks w))
            (log w ++ item_effects request t item)).
Proof.
  intros Hget Hid.
  unfold bind, emit, stream_body, item_effects, item_responses, status_update,
    artifact_update, item_task, item_status, _update_store, get_task, bind,
    upsert_task, yield, emit, ret; simpl.
  destruct (item_state item) as [st fin] eqn:Hst; simpl.
  rewrite Hget.
  destruct (is_task_complete item); simpl; rewrite Hid;
    unfold bind, ret; simpl; rewrite <- ?app_assoc; reflexivity.
Qed.

(** The whole loop: every notification is taken and leads to its write
    and its responses. *)
Lemma for_each_run request l : ∀ t w,
  _tasks w !! params_id (params request) = Some t →
  task_id t = params_id (params request) →
  for_each l (λ item, emit (ENext item) ;;; stream_body request item) w =
  (Ok tt, mkWorld (<[params_id (params request) := fold_left item_task l t]> (_tasks w))
            (log w ++ stream_effects request t l)).
Proof.
  induction l as [|item l IH]; intros t w Hget Hid; simpl.
  - rewrite app_nil_r, insert_id by done. by destruct w.
  - unfold bind at 1. rewrite (stream_body_run _ t) by done.
    rewrite (IH (item_task t item)); simpl.
    + by rewrite insert_insert_eq, <- app_assoc.
    + apply lookup_insert_eq.
    + by rewrite item_task_id.
Qed.

(** The generator, iterated to its end from a store that holds the task. *)
Lemma stream_generator_run request query rest t w :
  parts (params_message (params request)) = TextPart query :: rest →
  _tasks w !! params_id (params request) = Some t →
  task_id t = params_id (params request) →
  let s := stream agent query (params_sessionId (params request)) in
  _stream_generator agent request w =
  (Ok tt, mkWorld (<[params_id (params request) := fold_left item_task (items s) t]> (_tasks w))
            (log w ++ stream_effects request t (items s)
                   ++ failure_effects request (failure s))).
Proof.
  intros Hparts Hget Hid s.
  unfold _stream_generator, _get_user_query, lift, bind, try_except, async_for.
  rewrite Hparts. fold s.
  rewrite (bind_run (for_each _ _)), (for_each_run _ _ t) by done.
  destruct (failure s); simpl.
  - unfold raise, yield, emit; simpl. by rewrite <- app_assoc.
  - by rewrite app_nil_r.
Qed.

(** A subscription to a compatible request, from any store. *)
Lemma subscribe_and_drain_run request query rest w :
  are_modalities_compatible (acceptedOutputModes (params request))
    SUPPORTED_CONTENT_TYPES = true →
  parts (params_message (params request)) = TextPart query :: rest →
  let s := stream agent query (params_sessionId (params request)) in
  let t := task_of_params (params request) in
  subscribe_and_drain are_modalities_compatible agent request w =
  (Ok tt, mkWorld (<[params_id (params request) := fold_left item_task (items s) t]> (_tasks w))
            (log w ++ EUpsert t :: stream_effects request t (items s)
                   ++ failure_effects request (failure s))).
Proof.
  intros Hok Hparts s t.
  unfold subscribe_and_drain, on_send_task_subscribe, _validate_request.
  rewrite Hok; simpl. unfold bind at 1 2. simpl.
  rewrite (stream_generator_run _ query rest t);
    [|done|apply lookup_insert_eq|done]; simpl.
  by rewrite insert_insert_eq, <- app_assoc.
Qed.

(** A subscription to a compatible request whose query cannot be read. *)
Lemma subscribe_and_drain_no_query request e w :
  are_modalities_compatible (acceptedOutputModes (params request))
    SUPPORTED_CONTENT_TYPES = true →
  _get_user_query (params request) = Raise e →
  let t := task_of_params (params request) in
  subscribe_and_drain are_modalities_compatible agent request w =
  (Raise e, mkWorld (<[params_id (params request) := t]> (_tasks w))
              (log w ++ [EUpsert t])).
Proof.
  intros Hok Hquery t.
  unfold subscribe_and_drain, on_send_task_subscribe, _validate_request,
    _stream_generator.
  rewrite Hok; simpl. rewrite !bind_run; simpl. rewrite bind_run.
  unfold lift. by rewrite Hquery.
Qed.

(** A synchronous send of a compatible request, from any store. *)
Lemma on_send_task_run request w :
  are_modalities_compatible (acceptedOutputModes (params request))
    SUPPORTED_CONTENT_TYPES = true →
  let p := params request in
  let t := task_of_params p in
  on_send_task are_modalities_compatible agent request w =
  match _get_user_query p with
  | Raise e =>
      (Raise e, mkWorld (<[params_id p := t]> (_tasks w)) (log w ++ [EUpsert t]))
  | Ok query =>
      match invoke agent query (params_sessionId p) with
      | Raise e =>
          (Raise (ValueError ("Error invoking agent: " +:+ str e)),
           mkWorld (<[params_id p := t]> (_tasks w))
             (log w ++ [EUpsert t; EInvoke query (params_sessionId p)]))
      | Ok result =>
          (Ok (Result (request_id request) (invoke_task t result)),
           mkWorld (<[params_id p := invoke_task t result]> (_tasks w))
             (log w ++ [EUpsert t; EInvoke query (params_sessionId p);
                        EUpsert (invoke_task t result)]))
      end
  end.
Proof.
  intros Hok p t.
  unfold on_send_task, _validate_request. rewrite Hok; simpl.
  rewrite bind_run; simpl. rewrite bind_run. unfold lift at 1. fold p.
  destruct (_get_user_query p) as [query|e]; [|done].
  unfold try_except. rewrite bind_run; simpl. rewrite bind_run.
  unfold lift at 1; simpl.
  destruct (invoke agent query (params_sessionId p)) as [result|e].
  - rewrite bind_run. unfold _update_store. rewrite bind_run; simpl.
    rewrite lookup_insert_eq. rewrite bind_run; simpl.
    by rewrite insert_insert_eq, <- !app_assoc.
  - unfold raise; simpl. by rewrite <- app_assoc.
Qed.

End Run.

(** *** Reading the effects of a stream *)

Lemma responses_app l1 l2 : responses (l1 ++ l2) = responses l1 ++ responses l2.
Proof. apply omap_app. Qed.

Lemma writes_app l1 l2 : writes (l1 ++ l2) = writes l1 ++ writes l2.
Proof. apply omap_app. Qed.

Lemma consumed_app l1 l2 : consumed (l1 ++ l2) = consumed l1 ++ consumed l2.
Proof. apply omap_app. Qed.

Lemma observed_states_app id l1 l2 :
  observed_states id (l1 ++ l2) = observed_states id l1 ++ observed_states id l2.
Proof. apply omap_app. Qed.

Lemma responses_stream_effects request l : ∀ t,
  responses (stream_effects request t l) = l ≫= item_responses request.
Proof.
  induction l as [|item l IH]; intros t; [done|].
  cbn [stream_effects]. rewrite responses_app, IH.
  unfold item_effects, item_responses, responses; simpl.
  by destruct (is_task_complete item).
Qed.

Lemma consumed_stream_effects request l : ∀ t,
  consumed (stream_effects request t l) = l.
Proof.
  induction l as [|item l IH]; intros t; [done|].
  cbn [stream_effects]. rewrite consumed_app, IH.
  unfold item_effects, item_responses, consumed; simpl.
  by destruct (is_task_complete item).
Qed.

Lemma observed_states_stream_effects request l : ∀ t,
  task_id t = params_id (params request) →
  observed_states (params_id (params request)) (stream_effects request t l) =
  (λ item, fst (item_state item)) <$> l.
Proof.
  induction l as [|item l IH]; intros t Hid; [done|].
  cbn [stream_effects]. rewrite observed_states_app, IH by (by rewrite item_task_id).
  unfold item_effects, item_responses, observed_states at 1; simpl.
  rewrite item_task_id, decide_True by done.
  unfold item_task. by destruct (is_task_complete item).
Qed.

Lemma writes_stream_effects_length request l : ∀ t,
  length (writes (stream_effects request t l)) = length l.
Proof.
  induction l as [|item l IH]; intros t; [done|].
  cbn [stream_effects]. rewrite writes_app, length_app, IH.
  unfold item_effects, item_responses, writes; simpl.
  by destruct (is_task_complete item).
Qed.

(** *** Notifications that are not terminal, and the one that is *)

Lemma nonterminal_not_complete item :
  terminal item = false → is_task_complete item = false.
Proof. unfold terminal. by destruct (is_task_complete item). Qed.

Lemma is_final_status_update request item :
  is_final (status_update request item) = terminal item.
Proof. apply item_state_terminal. Qed.

Lemma responses_nonterminal request pre :
  Forall (λ item, terminal item = false) pre →
  pre ≫= item_responses request = status_update request <$> pre.
Proof.
  induction 1 as [|item pre Hitem _ IH]; [done|].
  cbn [mbind list_bind fmap list_fmap]. cbn [mbind fmap] in IH. rewrite IH.
  unfold item_responses. by rewrite (nonterminal_not_complete item).
Qed.

Lemma filter_final_nonterminal request pre :
  Forall (λ item, terminal item = false) pre →
  filter (λ r, is_final r = true) (status_update request <$> pre) = [].
Proof.
  induction 1 as [|item pre Hitem _ IH]; [done|].
  cbn [fmap list_fmap]. cbn [fmap] in IH.
  rewrite filter_cons_False, IH; [done|].
  rewrite is_final_status_update, Hitem. discriminate.
Qed.

Lemma first_terminal_prefix_contract pre t :
  Forall (λ item, terminal item = false) pre →
  first_terminal_prefix (pre ++ [t]) = pre ++ [t].
Proof.
  induction 1 as [|item pre Hitem _ IH]; simpl.
  - by destruct (terminal t).
  - by rewrite Hitem, IH.
Qed.

(** *** The order of the states *)

#[global] Instance state_le_refl : Reflexive state_le.
Proof. by left. Qed.

#[global] Instance state_le_trans : Transitive state_le.
Proof. intros a b c [->|Hab] [->|Hbc]; unfold state_le; auto; right; lia. Qed.

Lemma working_le_item_state item : state_le WORKING (fst (item_state item)).
Proof.
  unfold item_state, state_le.
  destruct (is_task_complete item), (get_require_user_input item); simpl; auto.
Qed.

Lemma states_sorted l :
  ends_at_first_terminal l →
  StronglySorted state_le (WORKING :: ((λ item, fst (item_state item)) <$> l)).
Proof.
  unfold ends_at_first_terminal.
  induction l as [|item l IH]; intros Hends.
  - repeat constructor.
  - simpl in Hends. injection Hends as Hends.
    destruct (terminal item) eqn:Hterm.
    + subst l. cbn [fmap list_fmap]. apply StronglySorted_cons. split.
      * apply Forall_singleton, working_le_item_state.
      * repeat constructor.
    + specialize (IH Hends). cbn [fmap list_fmap].
      rewrite (item_state_working item Hterm).
      apply StronglySorted_cons in IH as Hcons. destruct Hcons as [Hall _].
      constructor; [exact IH|]. by constructor.
Qed.

Lemma sorted_lookup {A} (R : relation A) l : ∀ i j a b,
  StronglySorted R l → i < j → l !! i = Some a → l !! j = Some b → R a b.
Proof.
  induction l as [|x l IH]; intros i j a b Hsorted Hij Hi Hj; [done|].
  apply StronglySorted_cons in Hsorted as [Hall Hsorted].
  destruct j as [|j]; [lia|]. simpl in Hj.
  destruct i as [|i]; simpl in Hi.
  - injection Hi as ->. rewrite Forall_forall in Hall.
    apply Hall. by eapply list_elem_of_lookup_2.
  - apply (IH i j); [done|lia|done|done].
Qed.

Lemma responses_failure_effects request f :
  responses (failure_effects request f) =
  match f with
  | Some e => [Error (request_id request) (InternalError (str e))]
  | None => []
  end.
Proof. by destruct f. Qed.

Lemma observed_states_failure_effects id request f :
  observed_states id (failure_effects request f) = [].
Proof. by destruct f. Qed.

End HiAgentRun.

(** ** The agent of the HiAgent manager follows the contract of a stream *)

Module CustomerAgentStream.
Import Json CustomerAgent.

Section Stream.

Variable service : string → nat → Outcome ProcessData.
Variable _run_workflow : string → Outcome JSON.
Variable json_loads : string → option JSON.
Variable as_json : ProcessData → JSON.
Variable digits_of : string → string.
Variable repr : JSON → string.

Lemma report_terminal process_data :
  HiAgent.terminal (report json_loads as_json repr process_data) = true.
Proof.
  unfold report. set (details := _extract_customer_details _ _).
  destruct (truthy details); [|done]. simpl.
  by destruct (py_getitem details "firstName"),
    (py_getitem details "lastName"), (py_getitem details "email").
Qed.

(** Whatever the remote service does, the stream of the agent is at most
    two notifications without a flag, then one with a flag, and no
    exception. *)
Lemma stream_follows_contract query session_id :
  ∃ pre t,
    stream service _run_workflow json_loads as_json digits_of repr
      query session_id = HiAgent.mkAgentStream (pre ++ [t]) None ∧
    Forall (λ item, HiAgent.terminal item = false) pre ∧
    HiAgent.terminal t = true ∧
    length pre ≤ 2.
Proof.
  unfold stream. case_decide.
  { exists [], (mkItem false (Some true)
                  "Please provide a valid customer ID (numbers only).").
    split_and!; [done|done|done|simpl; lia]. }
  set (looking := mkItem false None _).
  destruct (_run_workflow (digits_of query)) as [response|e].
  2: { exists [looking], error_occurred.
       split_and!; [done|by apply Forall_singleton|done|simpl; lia]. }
  destruct (py_get response "runId") as [run_id|].
  2: { exists [looking], error_occurred.
       split_and!; [done|by apply Forall_singleton|done|simpl; lia]. }
  destruct (truthy run_id); simpl.
  2: { eexists [looking], _.
       split_and!; [done|by apply Forall_singleton|done|simpl; lia]. }
  set (processing := mkItem false None _).
  eexists [looking; processing], _.
  split_and!; [done|by repeat constructor| |simpl; lia].
  destruct (_wait_for_process service (py_str repr run_id) 5 []).1 as [pd|[]];
    auto using report_terminal.
Qed.

Lemma stream_ends_at_first_terminal query session_id :
  HiAgent.ends_at_first_terminal
    (HiAgent.items
       (stream service _run_workflow json_loads as_json digits_of repr
          query session_id)).
Proof.
  destruct (stream_follows_contract query session_id)
    as (pre & t & -> & Hpre & _).
  by apply HiAgentRun.first_terminal_prefix_contract.
Qed.

End Stream.

End CustomerAgentStream.

(** ** What one synchronous send of the CrewAI manager does *)

Module CrewAIRun.
Import CrewAI.

Section Run.

Variable are_modalities_compatible : option (list string) → list string → bool.
Variable agent : Agent.

Lemma crew_invoke_run request tasks :
  let p := params request in
  _invoke agent request tasks =
  match _get_user_query p with
  | Raise e => (Raise e, tasks)
  | Ok query =>
      match invoke agent query with
      | Ok result =>
          (Ok (Result (request_id request) (completed_task p result)),
           <[params_id p := StoredTask (completed_task p result)]> tasks)
      | Raise e =>
          (Raise (ValueError ("Error invoking agent: " +:+ str e)),
           <[params_id p := StoredTask (error_task p e)]> tasks)
      end
  end.
Proof.
  intros p. unfold _invoke. rewrite bind_run. unfold lift at 1. fold p.
  destruct (_get_user_query p) as [query|e]; [|done].
  unfold try_except. rewrite bind_run. unfold lift at 1.
  by destruct (invoke agent query).
Qed.

Lemma crew_on_send_task_run request tasks :
  are_modalities_compatible (acceptedOutputModes (params request))
    SUPPORTED_CONTENT_TYPES = true →
  let p := params request in
  on_send_task are_modalities_compatible agent request tasks =
  _invoke agent request (<[params_id p := StoredParams p]> tasks).
Proof. intros Hok p. unfold on_send_task. by rewrite Hok. Qed.

End Run.

End CrewAIRun.

(** ** The modality check comes first *)

Module Validation.
Import Fixtures.

Section Validation.

Variable are_modalities_compatible : option (list string) → list string → bool.

(** C5. When the accepted output modes of a request are incompatible with
    the supported content types, [on_send_task] and
    [on_send_task_subscribe] of the HiAgent manager and [on_send_task] of
    the CrewAI manager return the IncompatibleModalityError response at
    once and leave the task store as it was: an id that had no entry has
    none afterwards. *)
Theorem incompatible_request_rejected_without_store_write
    (hi : HiAgent.Agent) (crew : CrewAI.Agent) (request : Request)
    (w : HiAgent.World) (tasks : gmap string CrewAI.Stored) :
  are_modalities_compatible (acceptedOutputModes (params request))
    HiAgent.SUPPORTED_CONTENT_TYPES = false →
  are_modalities_compatible (acceptedOutputModes (params request))
    CrewAI.SUPPORTED_CONTENT_TYPES = false →
  HiAgent.on_send_task are_modalities_compatible hi request w =
    (Ok (Error (request_id request) IncompatibleModalityError), w) ∧
  HiAgent.on_send_task_subscribe are_modalities_compatible hi request w =
    (Ok (HiAgent.Rejected (Error (request_id request) IncompatibleModalityError)), w) ∧
  CrewAI.on_send_task are_modalities_compatible crew request tasks =
    (Ok (Error (request_id request) IncompatibleModalityError), tasks) ∧
  (HiAgent._tasks w !! params_id (params request) = None →
   HiAgent._tasks
     (HiAgent.on_send_task are_modalities_compatible hi request w).2
     !! params_id (params request) = None ∧
   HiAgent._tasks
     (HiAgent.on_send_task_subscribe are_modalities_compatible hi request w).2
     !! params_id (params request) = None) ∧
  (tasks !! params_id (params request) = None →
   (CrewAI.on_send_task are_modalities_compatible crew request tasks).2
     !! params_id (params request) = None).
Proof.
  intros Hhi Hcrew.
  unfold HiAgent.on_send_task, HiAgent.on_send_task_subscribe,
    HiAgent._validate_request, CrewAI.on_send_task.
  rewrite Hhi, Hcrew; simpl.
  repeat split; done.
Qed.

End Validation.

Lemma incompatible_request_rejected_witness :
  HiAgent.on_send_task modalities_overlap (hi_agent (Ok done) [done] None)
    image_request HiAgent.empty_world =
    (Ok (Error "req-1" IncompatibleModalityError), HiAgent.empty_world) ∧
  (CrewAI.on_send_task modalities_overlap
     (crew_agent (Ok (CrewAI.mkAnalysisResult "top product is X")))
     image_request ∅).2 !! "task-1" = None.
Proof.
  destruct (incompatible_request_rejected_without_store_write modalities_overlap
              (hi_agent (Ok done) [done] None)
              (crew_agent (Ok (CrewAI.mkAnalysisResult "top product is X")))
              image_request HiAgent.empty_world ∅)
    as (Hsend & _ & _ & _ & Hcrew); [reflexivity | reflexivity |].
  split; [exact Hsend | exact (Hcrew eq_refl)].
Defined.

End Validation.

(** ** The query is the first part of the message *)

Module Queries.
Import Fixtures Spec.

(** [_get_user_query] looks at the first part only. *)
Lemma get_user_query_first_part p p' part rest rest' :
  parts (params_message p) = part :: rest →
  parts (params_message p') = part :: rest' →
  _get_user_query p = _get_user_query p'.
Proof. unfold _get_user_query. by intros -> ->. Qed.

Section Queries.

Variable are_modalities_compatible : option (list string) → list string → bool.

(** C9, as the code has it.  A compatible request whose FIRST part is not
    a text part is rejected: [on_send_task] of both managers and the
    generator of the HiAgent manager raise
    [ValueError "Only text parts are supported"], after the initial
    upsert and before the agent is called. *)
Theorem non_text_first_part_rejected
    (hi : HiAgent.Agent) (crew : CrewAI.Agent) (request : Request)
    (kind : string) (rest : list Part)
    (w : HiAgent.World) (tasks : gmap string CrewAI.Stored) :
  are_modalities_compatible (acceptedOutputModes (params request))
    HiAgent.SUPPORTED_CONTENT_TYPES = true →
  are_modalities_compatible (acceptedOutputModes (params request))
    CrewAI.SUPPORTED_CONTENT_TYPES = true →
  parts (params_message (params request)) = NonTextPart kind :: rest →
  let p := params request in
  let w' := HiAgent.mkWorld (<[params_id p := HiAgent.task_of_params p]> (HiAgent._tasks w))
              (HiAgent.log w ++ [HiAgent.EUpsert (HiAgent.task_of_params p)]) in
  HiAgent.on_send_task are_modalities_compatible hi request w =
    (Raise (ValueError "Only text parts are supported"), w') ∧
  HiAgent.subscribe_and_drain are_modalities_compatible hi request w =
    (Raise (ValueError "Only text parts are supported"), w') ∧
  CrewAI.on_send_task are_modalities_compatible crew request tasks =
    (Raise (ValueError "Only text parts are supported"),
     <[params_id p := CrewAI.StoredParams p]> tasks).
Proof.
  intros Hhi Hcrew Hparts p w'. split_and!.
  - rewrite HiAgentRun.on_send_task_run by done.
    unfold _get_user_query. by rewrite Hparts.
  - unfold HiAgent.subscribe_and_drain, HiAgent.on_send_task_subscribe,
      HiAgent._validate_request, HiAgent._stream_generator, _get_user_query.
    by rewrite Hhi, Hparts.
  - rewrite CrewAIRun.crew_on_send_task_run, CrewAIRun.crew_invoke_run by done.
    unfold _get_user_query. by rewrite Hparts.
Qed.

(** C10, as the code has it.  A compatible request whose message has no
    part makes
    [on_send_task] of both managers and the generator of the HiAgent
    manager raise [IndexError]; no error response is returned.  The
    exception comes after the initial upsert, so the store holds what that
    upsert put: the task in state working in the HiAgent manager, the
    parameters of the request in the CrewAI manager, never a task in state
    error. *)
Theorem empty_parts_raise_index_error
    (hi : HiAgent.Agent) (crew : CrewAI.Agent) (request : Request)
    (w : HiAgent.World) (tasks : gmap string CrewAI.Stored) :
  are_modalities_compatible (acceptedOutputModes (params request))
    HiAgent.SUPPORTED_CONTENT_TYPES = true →
  are_modalities_compatible (acceptedOutputModes (params request))
    CrewAI.SUPPORTED_CONTENT_TYPES = true →
  parts (params_message (params request)) = [] →
  let p := params request in
  let sent := HiAgent.on_send_task are_modalities_compatible hi request w in
  let drained := HiAgent.subscribe_and_drain are_modalities_compatible hi request w in
  let crewed := CrewAI.on_send_task are_modalities_compatible crew request tasks in
  sent.1 = Raise (IndexError "list index out of range") ∧
  drained.1 = Raise (IndexError "list index out of range") ∧
  crewed.1 = Raise (IndexError "list index out of range") ∧
  HiAgent._tasks sent.2 !! params_id p = Some (HiAgent.task_of_params p) ∧
  HiAgent._tasks drained.2 !! params_id p = Some (HiAgent.task_of_params p) ∧
  crewed.2 !! params_id p = Some (CrewAI.StoredParams p) ∧
  state (task_status (HiAgent.task_of_params p)) = WORKING.
Proof.
  intros Hhi Hcrew Hparts p sent drained crewed.
  assert (Hq : _get_user_query p = Raise (IndexError "list index out of range")).
  { unfold _get_user_query. fold p in Hparts. by rewrite Hparts. }
  assert (Hsent : sent =
    (Raise (IndexError "list index out of range"),
     HiAgent.mkWorld (<[params_id p := HiAgent.task_of_params p]> (HiAgent._tasks w))
       (HiAgent.log w ++ [HiAgent.EUpsert (HiAgent.task_of_params p)]))).
  { unfold sent, id. rewrite HiAgentRun.on_send_task_run by done. fold p. by rewrite Hq. }
  assert (Hdrained : drained =
    (Raise (IndexError "list index out of range"),
     HiAgent.mkWorld (<[params_id p := HiAgent.task_of_params p]> (HiAgent._tasks w))
       (HiAgent.log w ++ [HiAgent.EUpsert (HiAgent.task_of_params p)]))).
  { unfold drained, HiAgent.subscribe_and_drain, HiAgent.on_send_task_subscribe,
      HiAgent._validate_request, HiAgent._stream_generator.
    rewrite Hhi; simpl. rewrite !bind_run; simpl. rewrite bind_run.
    unfold lift. fold p. by rewrite Hq. }
  assert (Hcrewed : crewed =
    (Raise (IndexError "list index out of range"),
     <[params_id p := CrewAI.StoredParams p]> tasks)).
  { unfold crewed. rewrite CrewAIRun.crew_on_send_task_run, CrewAIRun.crew_invoke_run by done.
    fold p. by rewrite Hq. }
  rewrite Hsent, Hdrained, Hcrewed; simpl.
  by rewrite !lookup_insert_eq.
Qed.

End Queries.

(** C9, as the spec has it, fails: a request with a text part followed by
    a part of another kind is served, and the second part is ignored. *)
Lemma non_text_part_after_text_part_served :
  has_non_text_part mixed_request ∧
  ¬ rejected (HiAgent.on_send_task modalities_overlap
                (hi_agent (Ok done) [] None) mixed_request HiAgent.empty_world) ∧
  ¬ rejected (CrewAI.on_send_task modalities_overlap
                (crew_agent (Ok (CrewAI.mkAnalysisResult "top product is X")))
                mixed_request ∅).
Proof.
  split_and!.
  - exists "file". vm_compute. apply list_elem_of_In. right. by left.
  - intros [e He]. vm_compute in He. discriminate.
  - intros [e He]. vm_compute in He. discriminate.
Qed.

Lemma non_text_first_part_rejected_witness :
  (HiAgent.on_send_task modalities_overlap (hi_agent (Ok done) [] None)
     file_request HiAgent.empty_world).1 =
    Raise (ValueError "Only text parts are supported") ∧
  (CrewAI.on_send_task modalities_overlap
     (crew_agent (Ok (CrewAI.mkAnalysisResult "top product is X")))
     file_request ∅).1 =
    Raise (ValueError "Only text parts are supported").
Proof.
  destruct (non_text_first_part_rejected modalities_overlap
              (hi_agent (Ok done) [] None)
              (crew_agent (Ok (CrewAI.mkAnalysisResult "top product is X")))
              file_request "file" [] HiAgent.empty_world ∅)
    as (Hsend & _ & Hcrew); [reflexivity | reflexivity | reflexivity |].
  split; [by rewrite Hsend | by rewrite Hcrew].
Defined.

(** C10, as the spec has it, fails: the modality check comes before the
    query is read, so a request without parts whose accepted output modes
    are incompatible raises nothing; it gets the typed
    IncompatibleModalityError response, no upsert is made and the store
    holds no task for its id. *)
Lemma empty_parts_incompatible_request_not_raised :
  ¬ rejected (HiAgent.on_send_task modalities_overlap
                (hi_agent (Ok done) [] None) empty_image_request
                HiAgent.empty_world) ∧
  ¬ rejected (CrewAI.on_send_task modalities_overlap
                (crew_agent (Ok (CrewAI.mkAnalysisResult "top product is X")))
                empty_image_request ∅) ∧
  (HiAgent.on_send_task modalities_overlap (hi_agent (Ok done) [] None)
     empty_image_request HiAgent.empty_world).1 =
    Ok (Error "req-1" IncompatibleModalityError) ∧
  (HiAgent.subscribe_and_drain modalities_overlap (hi_agent (Ok done) [] None)
     empty_image_request HiAgent.empty_world).1 = Ok tt ∧
  HiAgent._tasks
    (HiAgent.on_send_task modalities_overlap (hi_agent (Ok done) [] None)
       empty_image_request HiAgent.empty_world).2 !! "task-1" = None ∧
  HiAgent._tasks
    (HiAgent.subscribe_and_drain modalities_overlap (hi_agent (Ok done) [] None)
       empty_image_request HiAgent.empty_world).2 !! "task-1" = None.
Proof.
  split_and!.
  - intros [e He]. vm_compute in He. discriminate.
  - intros [e He]. vm_compute in He. discriminate.
  - reflexivity.
  - reflexivity.
  - reflexivity.
  - reflexivity.
Qed.

Lemma empty_parts_raise_index_error_witness :
  (HiAgent.on_send_task modalities_overlap (hi_agent (Ok done) [] None)
     empty_request HiAgent.empty_world).1 =
    Raise (IndexError "list index out of range") ∧
  HiAgent._tasks
    (HiAgent.on_send_task modalities_overlap (hi_agent (Ok done) [] None)
       empty_request HiAgent.empty_world).2 !! "task-1" =
    Some (HiAgent.task_of_params (params empty_request)).
Proof.
  destruct (empty_parts_raise_index_error modalities_overlap
              (hi_agent (Ok done) [] None)
              (crew_agent (Ok (CrewAI.mkAnalysisResult "top product is X")))
              empty_request HiAgent.empty_world ∅)
    as (Hsend & _ & _ & Hstore & _); [reflexivity | reflexivity | reflexivity |].
  split; [exact Hsend | exact Hstore].
Defined.

End Queries.

(** ** The initial upsert *)

Module InitialUpsert.
Import Fixtures Spec.

Section InitialUpsert.

Variable are_modalities_compatible : option (list string) → list string → bool.

(** C6, as the code has it.  For a compatible request the HiAgent manager
    first stores the task built from the parameters of the request, in
    state WORKING: that is the store [on_send_task_subscribe] leaves
    before the generator runs, and the first write of [on_send_task].
    The CrewAI manager stores the parameters themselves, which have no
    status, and calls [_invoke] on that store. *)
Theorem initial_upsert_stores_working
    (hi : HiAgent.Agent) (crew : CrewAI.Agent) (request : Request)
    (w : HiAgent.World) (tasks : gmap string CrewAI.Stored) :
  are_modalities_compatible (acceptedOutputModes (params request))
    HiAgent.SUPPORTED_CONTENT_TYPES = true →
  are_modalities_compatible (acceptedOutputModes (params request))
    CrewAI.SUPPORTED_CONTENT_TYPES = true →
  let p := params request in
  let t := HiAgent.task_of_params p in
  HiAgent.on_send_task_subscribe are_modalities_compatible hi request w =
    (Ok (HiAgent.Generator (HiAgent._stream_generator hi request)),
     HiAgent.mkWorld (<[params_id p := t]> (HiAgent._tasks w))
       (HiAgent.log w ++ [HiAgent.EUpsert t])) ∧
  (<[params_id p := t]> (HiAgent._tasks w) !! params_id p = Some t ∧
   state (task_status t) = WORKING) ∧
  (∃ later,
     HiAgent.log (HiAgent.on_send_task are_modalities_compatible hi request w).2 =
     HiAgent.log w ++ HiAgent.EUpsert t :: later) ∧
  CrewAI.on_send_task are_modalities_compatible crew request tasks =
    CrewAI._invoke crew request (<[params_id p := CrewAI.StoredParams p]> tasks).
Proof.
  intros Hhi Hcrew p t. split_and!.
  - unfold HiAgent.on_send_task_subscribe, HiAgent._validate_request.
    by rewrite Hhi.
  - apply lookup_insert_eq.
  - done.
  - rewrite HiAgentRun.on_send_task_run by done. fold p.
    destruct (_get_user_query p) as [query|e]; [|by exists []].
    destruct (HiAgent.invoke hi query (params_sessionId p)); by eexists.
  - by apply CrewAIRun.crew_on_send_task_run.
Qed.

End InitialUpsert.

(** C6, as the spec has it, fails: between the initial upsert and the run
    of the generator the stored task is in state working, not submitted. *)
Lemma initial_upsert_not_submitted :
  ¬ observes_submitted
      (HiAgent._tasks
         (HiAgent.on_send_task_subscribe modalities_overlap
            (hi_agent (Ok done) [looking_up; done] None)
            text_request HiAgent.empty_world).2)
      "task-1".
Proof.
  intros (t & Hget & Hstate).
  change (<["task-1" := HiAgent.task_of_params (params text_request)]>
            (∅ : gmap string Task) !! "task-1" = Some t) in Hget.
  rewrite lookup_insert_eq in Hget. injection Hget as <-. discriminate.
Qed.

Lemma initial_upsert_stores_working_witness :
  HiAgent._tasks
    (HiAgent.on_send_task_subscribe modalities_overlap
       (hi_agent (Ok done) [looking_up; done] None)
       text_request HiAgent.empty_world).2 !! "task-1" =
    Some (HiAgent.task_of_params (params text_request)) ∧
  state (task_status (HiAgent.task_of_params (params text_request))) = WORKING.
Proof.
  destruct (initial_upsert_stores_working modalities_overlap
              (hi_agent (Ok done) [looking_up; done] None)
              (crew_agent (Ok (CrewAI.mkAnalysisResult "top product is X")))
              text_request HiAgent.empty_world ∅)
    as (Hsub & [Hget Hstate] & _); [reflexivity | reflexivity |].
  rewrite Hsub. split; [exact Hget | exact Hstate].
Defined.

End InitialUpsert.

(** ** When the agent fails *)

Module Failures.
Import Fixtures Spec.

Section Failures.

Variable are_modalities_compatible : option (list string) → list string → bool.

(** C2, as the code has it.  In the CrewAI manager, when [agent.invoke]
    raises [e] on a compatible request with a text query, [on_send_task]
    raises [ValueError] with the message of [e], and the store then holds
    for the id of the request a task in state ERROR; the status has no
    message of its own, the text "Error: " followed by the message of [e]
    is the message of the task. *)
Theorem crew_invoke_failure_stores_error_task
    (crew : CrewAI.Agent) (request : Request) (query : string) (rest : list Part)
    (e : Exn) (tasks : gmap string CrewAI.Stored) :
  are_modalities_compatible (acceptedOutputModes (params request))
    CrewAI.SUPPORTED_CONTENT_TYPES = true →
  parts (params_message (params request)) = TextPart query :: rest →
  CrewAI.invoke crew query = Raise e →
  let run := CrewAI.on_send_task are_modalities_compatible crew request tasks in
  run.1 = Raise (ValueError ("Error invoking agent: " +:+ str e)) ∧
  ∃ t, run.2 !! params_id (params request) = Some (CrewAI.StoredTask t) ∧
       task_id t = params_id (params request) ∧
       task_status t = mkTaskStatus ERROR None ∧
       task_message t = Some (mkMessage "agent" [TextPart ("Error: " +:+ str e)]) ∧
       task_artifacts t = Some [].
Proof.
  intros Hok Hparts Hraise run. unfold run.
  rewrite CrewAIRun.crew_on_send_task_run, CrewAIRun.crew_invoke_run by done.
  unfold _get_user_query. rewrite Hparts, Hraise; simpl.
  split; [done|]. eexists. rewrite lookup_insert_eq. by split_and!.
Qed.

(** C8, as the code has it.  When the stream of the agent raises [e]
    after any number of notifications, the subscriber of a compatible
    request with a text query receives the responses of the notifications
    and then, last, the error response [InternalError] with the message of
    [e]: nothing follows it, no response is a status update in state
    error, and no write puts the stored task in state error. *)
Theorem stream_failure_ends_with_error_response
    (hi : HiAgent.Agent) (request : Request) (query : string) (rest : list Part)
    (e : Exn) (tasks : gmap string Task) :
  are_modalities_compatible (acceptedOutputModes (params request))
    HiAgent.SUPPORTED_CONTENT_TYPES = true →
  parts (params_message (params request)) = TextPart query :: rest →
  let s := HiAgent.stream hi query (params_sessionId (params request)) in
  HiAgent.failure s = Some e →
  let run := HiAgent.subscribe_and_drain are_modalities_compatible hi request
               (HiAgent.mkWorld tasks []) in
  let rs := HiAgent.responses (HiAgent.log run.2) in
  run.1 = Ok tt ∧
  rs = (HiAgent.items s ≫= HiAgent.item_responses request) ++
       [Error (request_id request) (InternalError (str e))] ∧
  last rs = Some (Error (request_id request) (InternalError (str e))) ∧
  Forall (λ r, ¬ is_error_status r) rs ∧
  ERROR ∉ HiAgent.observed_states (params_id (params request)) (HiAgent.log run.2).
Proof.
  intros Hok Hparts s Hfail run rs.
  assert (Hrs : rs = (HiAgent.items s ≫= HiAgent.item_responses request) ++
                     [Error (request_id request) (InternalError (str e))]).
  { unfold rs, run. rewrite (HiAgentRun.subscribe_and_drain_run _ _ _ query rest) by done.
    fold s. rewrite Hfail; simpl.
    change (HiAgent.EUpsert ?t :: ?l) with ([HiAgent.EUpsert t] ++ l).
    by rewrite !HiAgentRun.responses_app, HiAgentRun.responses_stream_effects. }
  split_and!.
  - unfold run. by rewrite (HiAgentRun.subscribe_and_drain_run _ _ _ query rest).
  - done.
  - rewrite Hrs. apply last_snoc.
  - rewrite Hrs. apply Forall_app. split.
    + apply Forall_forall. intros r Hr.
      apply list_elem_of_bind in Hr as (item & Hr & _).
      intros (rid & tid & status & final & -> & Herr).
      unfold HiAgent.item_responses in Hr.
      apply elem_of_cons in Hr as [Hr|Hr].
      * unfold HiAgent.status_update in Hr. injection Hr as _ _ -> _.
        by apply (HiAgentRun.item_state_not_error item).
      * destruct (is_task_complete item); [|by apply elem_of_nil in Hr].
        apply list_elem_of_singleton in Hr. discriminate.
    + apply Forall_singleton. by intros (? & ? & ? & ? & ? & ?).
  - unfold run. rewrite (HiAgentRun.subscribe_and_drain_run _ _ _ query rest) by done.
    fold s; simpl.
    change (HiAgent.EUpsert ?t :: ?l) with ([HiAgent.EUpsert t] ++ l).
    rewrite !HiAgentRun.observed_states_app,
      HiAgentRun.observed_states_stream_effects,
      HiAgentRun.observed_states_failure_effects by done.
    unfold HiAgent.observed_states; simpl. rewrite decide_True by done.
    rewrite app_nil_r. intros Hin.
    apply elem_of_cons in Hin as [Hin|Hin]; [done|].
    apply list_elem_of_fmap in Hin as (item & Hin & _).
    by apply (HiAgentRun.item_state_not_error item).
Qed.

End Failures.

(** C2, as the spec has it, fails.  After [agent.invoke] raised, the task
    the CrewAI manager stores is in state error but its status has no
    message, and the HiAgent manager leaves the task in state working. *)
Lemma invoke_failure_status_without_message :
  ¬ crew_holds_error
      (CrewAI.on_send_task modalities_overlap (crew_agent (Raise unreachable))
         text_request ∅).2 "task-1" unreachable ∧
  ¬ hi_holds_error
      (HiAgent._tasks
         (HiAgent.on_send_task modalities_overlap
            (hi_agent (Raise unreachable) [] None)
            text_request HiAgent.empty_world).2) "task-1" unreachable.
Proof.
  split.
  - intros (t & Hget & _ & m & Hm & _).
    rewrite CrewAIRun.crew_on_send_task_run, CrewAIRun.crew_invoke_run in Hget
      by reflexivity.
    simpl in Hget. rewrite lookup_insert_eq in Hget.
    injection Hget as <-. discriminate.
  - intros (t & Hget & Hstate & _).
    rewrite HiAgentRun.on_send_task_run in Hget by reflexivity.
    simpl in Hget. rewrite lookup_insert_eq in Hget.
    injection Hget as <-. discriminate.
Qed.

Lemma crew_invoke_failure_stores_error_task_witness :
  (CrewAI.on_send_task modalities_overlap (crew_agent (Raise unreachable))
     text_request ∅).1 =
    Raise (ValueError "Error invoking agent: backend unreachable") ∧
  ∃ t, (CrewAI.on_send_task modalities_overlap (crew_agent (Raise unreachable))
          text_request ∅).2 !! "task-1" = Some (CrewAI.StoredTask t) ∧
       state (task_status t) = ERROR.
Proof.
  destruct (crew_invoke_failure_stores_error_task modalities_overlap
              (crew_agent (Raise unreachable)) text_request "customer 42" []
              unreachable ∅)
    as (Hraise & t & Hget & _ & Hstatus & _);
    [reflexivity | reflexivity | reflexivity |].
  split; [exact Hraise|]. exists t. split; [exact Hget|]. by rewrite Hstatus.
Defined.

(** C8, as the spec has it, fails: the last response of a failed stream
    is an error response, not a status update in state error. *)
Lemma stream_failure_without_error_status :
  ¬ ends_with_error_status
      (HiAgent.responses
         (HiAgent.log
            (HiAgent.subscribe_and_drain modalities_overlap
               (hi_agent (Ok done) [looking_up] (Some unreachable))
               text_request HiAgent.empty_world).2)).
Proof.
  intros (rid & tid & status & Hlast & _).
  rewrite (HiAgentRun.subscribe_and_drain_run _ _ _ "customer 42" []) in Hlast
    by reflexivity.
  simpl in Hlast. discriminate.
Qed.

Lemma stream_failure_ends_with_error_response_witness :
  last (HiAgent.responses
          (HiAgent.log
             (HiAgent.subscribe_and_drain modalities_overlap
                (hi_agent (Ok done) [looking_up] (Some unreachable))
                text_request HiAgent.empty_world).2)) =
    Some (Error "req-1" (InternalError "backend unreachable")).
Proof.
  destruct (stream_failure_ends_with_error_response modalities_overlap
              (hi_agent (Ok done) [looking_up] (Some unreachable))
              text_request "customer 42" [] unreachable ∅)
    as (_ & _ & Hlast & _); [reflexivity | reflexivity | reflexivity |].
  exact Hlast.
Defined.

End Failures.

(** ** The responses and the writes of a streaming send *)

Module Streaming.
Import Fixtures Spec.

Section Streaming.

Variable are_modalities_compatible : option (list string) → list string → bool.
Variable hi : HiAgent.Agent.

(** C1, as the code has it.  Let the stream of the agent follow its
    contract: notifications that are not terminal, then one terminal
    notification, and no exception.  Then the responses are one status
    update per notification, of which only the one of the terminal
    notification is final; when that notification has [is_task_complete]
    set, one artifact update follows the final status update and is the
    last response, otherwise the final status update is the last. *)
Theorem contract_stream_single_final
    (request : Request) (query : string) (rest : list Part)
    (pre : list Item) (t : Item) (tasks : gmap string Task) :
  are_modalities_compatible (acceptedOutputModes (params request))
    HiAgent.SUPPORTED_CONTENT_TYPES = true →
  parts (params_message (params request)) = TextPart query :: rest →
  HiAgent.stream hi query (params_sessionId (params request)) =
    HiAgent.mkAgentStream (pre ++ [t]) None →
  Forall (λ item, HiAgent.terminal item = false) pre →
  HiAgent.terminal t = true →
  let run := HiAgent.subscribe_and_drain are_modalities_compatible hi request
               (HiAgent.mkWorld tasks []) in
  let rs := HiAgent.responses (HiAgent.log run.2) in
  run.1 = Ok tt ∧
  rs = (HiAgent.status_update request <$> pre) ++
       HiAgent.status_update request t ::
       (if is_task_complete t then [HiAgent.artifact_update request t] else []) ∧
  filter (λ r, HiAgent.is_final r = true) rs = [HiAgent.status_update request t] ∧
  (is_task_complete t = false → last rs = Some (HiAgent.status_update request t)) ∧
  (is_task_complete t = true →
   last rs = Some (HiAgent.artifact_update request t) ∧
   rs !! length pre = Some (HiAgent.status_update request t) ∧
   length rs = S (S (length pre))).
Proof.
  intros Hok Hparts Hstream Hpre Ht run rs.
  assert (Hrun : run.1 = Ok tt).
  { unfold run. by rewrite (HiAgentRun.subscribe_and_drain_run _ _ _ query rest). }
  assert (Hrs : rs = (HiAgent.status_update request <$> pre) ++
                     HiAgent.status_update request t ::
                     (if is_task_complete t
                      then [HiAgent.artifact_update request t] else [])).
  { unfold rs, run. rewrite (HiAgentRun.subscribe_and_drain_run _ _ _ query rest) by done.
    rewrite Hstream; simpl.
    change (HiAgent.EUpsert ?x :: ?l) with ([HiAgent.EUpsert x] ++ l).
    rewrite !HiAgentRun.responses_app, HiAgentRun.responses_stream_effects.
    simpl. rewrite app_nil_r, bind_app, HiAgentRun.responses_nonterminal by done.
    f_equal. simpl. unfold HiAgent.item_responses.
    by destruct (is_task_complete t). }
  split_and!; [done|done|..].
  - rewrite Hrs, filter_app, HiAgentRun.filter_final_nonterminal by done.
    rewrite filter_cons_True
      by (by rewrite HiAgentRun.is_final_status_update).
    by destruct (is_task_complete t).
  - intros Hc. rewrite Hrs, Hc. apply last_snoc.
  - intros Hc. rewrite Hrs, Hc. split_and!.
    + by rewrite (last_app_cons _ _ (HiAgent.status_update request t)).
    + rewrite lookup_app_r by (by rewrite length_fmap).
      by rewrite length_fmap, Nat.sub_diag.
    + rewrite length_app, length_fmap. simpl. lia.
Qed.

(** C3, as the code has it.  When no notification of the stream comes
    after a terminal one, the states the writes of a streaming send put
    the task in never go back: they are sorted by the order of the
    states, and after a state that ends the turn none is submitted or
    working.  The same holds of the writes of a synchronous send. *)
Theorem states_never_regress (request : Request) (tasks : gmap string Task) :
  are_modalities_compatible (acceptedOutputModes (params request))
    HiAgent.SUPPORTED_CONTENT_TYPES = true →
  (∀ query,
     HiAgent.ends_at_first_terminal
       (HiAgent.items
          (HiAgent.stream hi query (params_sessionId (params request))))) →
  let id := params_id (params request) in
  let streamed :=
    HiAgent.observed_states id
      (HiAgent.log (HiAgent.subscribe_and_drain are_modalities_compatible hi request
                      (HiAgent.mkWorld tasks [])).2) in
  let sent :=
    HiAgent.observed_states id
      (HiAgent.log (HiAgent.on_send_task are_modalities_compatible hi request
                      (HiAgent.mkWorld tasks [])).2) in
  StronglySorted HiAgent.state_le streamed ∧
  StronglySorted HiAgent.state_le sent ∧
  ∀ states i j a b,
    states = streamed ∨ states = sent →
    i < j → states !! i = Some a → states !! j = Some b →
    HiAgent.rank a = 2 → b ≠ SUBMITTED ∧ b ≠ WORKING.
Proof.
  intros Hok Hends id streamed sent.
  assert (Hone : ∀ t, task_id t = id →
            StronglySorted HiAgent.state_le
              (HiAgent.observed_states id [HiAgent.EUpsert t])).
  { intros t Ht. unfold HiAgent.observed_states; simpl.
    rewrite decide_True by done. repeat constructor. }
  assert (Hstreamed : StronglySorted HiAgent.state_le streamed).
  { unfold streamed, id.
    destruct (_get_user_query (params request)) as [query|e] eqn:Hquery.
    - unfold _get_user_query in Hquery.
      destruct (parts (params_message (params request)))
        as [|[text|kind] rest] eqn:Hparts; [done| |done].
      injection Hquery as ->.
      rewrite (HiAgentRun.subscribe_and_drain_run _ _ _ query rest) by done; simpl.
      change (HiAgent.EUpsert ?x :: ?l) with ([HiAgent.EUpsert x] ++ l).
      rewrite !HiAgentRun.observed_states_app,
        HiAgentRun.observed_states_stream_effects,
        HiAgentRun.observed_states_failure_effects by done.
      unfold HiAgent.observed_states; simpl. rewrite decide_True by done.
      rewrite app_nil_r. by apply HiAgentRun.states_sorted.
    - rewrite (HiAgentRun.subscribe_and_drain_no_query _ _ _ e) by done.
      by apply Hone. }
  assert (Hsent : StronglySorted HiAgent.state_le sent).
  { unfold sent, id. rewrite HiAgentRun.on_send_task_run by done.
    destruct (_get_user_query (params request)) as [query|e]; [|by apply Hone].
    destruct (HiAgent.invoke hi query (params_sessionId (params request)))
      as [result|e]; unfold HiAgent.observed_states; simpl;
      rewrite ?decide_True by done.
    - apply StronglySorted_cons. split; [|repeat constructor].
      apply Forall_singleton. right.
      destruct (get_require_user_input result); simpl; lia.
    - repeat constructor. }
  split_and!; [done|done|].
  intros states i j a b Hstates Hij Hi Hj Ha.
  assert (Hle : HiAgent.state_le a b).
  { destruct Hstates as [-> | ->].
    - exact (HiAgentRun.sorted_lookup _ _ i j a b Hstreamed Hij Hi Hj).
    - exact (HiAgentRun.sorted_lookup _ _ i j a b Hsent Hij Hi Hj). }
  destruct Hle as [<-|Hlt]; [by destruct a|].
  rewrite Ha in Hlt. destruct b; simpl in Hlt; lia.
Qed.

(** C4, as the code has it.  The core marks as final the status update of
    every terminal notification but takes every notification of the
    stream, to its end: each leads to one write and its responses, in
    order, followed by the error response when the stream raises.  The
    core has taken the notifications up to the first terminal one, and no
    more, exactly when the stream stops there. *)
Theorem stream_consumed_to_its_end
    (request : Request) (query : string) (rest : list Part)
    (tasks : gmap string Task) :
  are_modalities_compatible (acceptedOutputModes (params request))
    HiAgent.SUPPORTED_CONTENT_TYPES = true →
  parts (params_message (params request)) = TextPart query :: rest →
  let s := HiAgent.stream hi query (params_sessionId (params request)) in
  let run := HiAgent.subscribe_and_drain are_modalities_compatible hi request
               (HiAgent.mkWorld tasks []) in
  HiAgent.log run.2 =
    HiAgent.EUpsert (HiAgent.task_of_params (params request)) ::
    HiAgent.stream_effects request (HiAgent.task_of_params (params request))
      (HiAgent.items s) ++
    HiAgent.failure_effects request (HiAgent.failure s) ∧
  HiAgent.consumed (HiAgent.log run.2) = HiAgent.items s ∧
  HiAgent.responses (HiAgent.log run.2) =
    (HiAgent.items s ≫= HiAgent.item_responses request) ++
    HiAgent.responses (HiAgent.failure_effects request (HiAgent.failure s)) ∧
  length (HiAgent.writes (HiAgent.log run.2)) = S (length (HiAgent.items s)) ∧
  (∀ item, HiAgent.is_final (HiAgent.status_update request item) =
           HiAgent.terminal item) ∧
  (stops_at_first_terminal s (HiAgent.log run.2) ↔
   HiAgent.ends_at_first_terminal (HiAgent.items s)).
Proof.
  intros Hok Hparts s run.
  assert (Hlog : HiAgent.log run.2 =
    [HiAgent.EUpsert (HiAgent.task_of_params (params request))] ++
    HiAgent.stream_effects request (HiAgent.task_of_params (params request))
      (HiAgent.items s) ++
    HiAgent.failure_effects request (HiAgent.failure s)).
  { unfold run. by rewrite (HiAgentRun.subscribe_and_drain_run _ _ _ query rest). }
  assert (Hconsumed : HiAgent.consumed (HiAgent.log run.2) = HiAgent.items s).
  { rewrite Hlog, !HiAgentRun.consumed_app, HiAgentRun.consumed_stream_effects.
    destruct (HiAgent.failure s); simpl; by rewrite app_nil_r. }
  split_and!.
  - done.
  - done.
  - by rewrite Hlog, !HiAgentRun.responses_app, HiAgentRun.responses_stream_effects.
  - rewrite Hlog, !HiAgentRun.writes_app, !length_app,
      HiAgentRun.writes_stream_effects_length.
    destruct (HiAgent.failure s); simpl; lia.
  - apply HiAgentRun.is_final_status_update.
  - unfold stops_at_first_terminal, HiAgent.ends_at_first_terminal.
    rewrite Hconsumed. split; intros H; by symmetry.
Qed.

End Streaming.

(** C1, as the spec has it, fails on the spec's own scenario: the stream
    yields "looking up..." and then the complete "done"; the final status
    update is followed by the artifact update, which is the last response
    and is not final. *)
Lemma artifact_follows_final_status :
  ¬ single_final_last
      (HiAgent.responses
         (HiAgent.log
            (HiAgent.subscribe_and_drain modalities_overlap
               (hi_agent (Ok done) [looking_up; done] None)
               text_request HiAgent.empty_world).2)).
Proof.
  intros (_ & r & Hlast & Hfinal).
  rewrite (HiAgentRun.subscribe_and_drain_run _ _ _ "customer 42" []) in Hlast
    by reflexivity.
  simpl in Hlast. injection Hlast as <-. discriminate.
Qed.

Lemma contract_stream_single_final_witness :
  last (HiAgent.responses
          (HiAgent.log
             (HiAgent.subscribe_and_drain modalities_overlap
                (hi_agent (Ok done) [looking_up; done] None)
                text_request HiAgent.empty_world).2)) =
    Some (HiAgent.artifact_update text_request done) ∧
  filter (λ r, HiAgent.is_final r = true)
    (HiAgent.responses
       (HiAgent.log
          (HiAgent.subscribe_and_drain modalities_overlap
             (hi_agent (Ok done) [looking_up; done] None)
             text_request HiAgent.empty_world).2)) =
    [HiAgent.status_update text_request done].
Proof.
  destruct (contract_stream_single_final modalities_overlap
              (hi_agent (Ok done) [looking_up; done] None)
              text_request "customer 42" [] [looking_up] done ∅)
    as (_ & _ & Hfilter & _ & Hlast);
    [reflexivity | reflexivity | reflexivity
    | by apply Forall_singleton | reflexivity |].
  split; [exact (proj1 (Hlast eq_refl)) | exact Hfilter].
Defined.

(** C3, as the spec has it, fails: an agent whose stream goes on after a
    complete notification takes the stored task from completed back to
    working. *)
Lemma state_regresses_after_terminal :
  ¬ never_regresses
      (HiAgent.observed_states "task-1"
         (HiAgent.log
            (HiAgent.subscribe_and_drain modalities_overlap
               (hi_agent (Ok done) [done; looking_up] None)
               text_request HiAgent.empty_world).2)).
Proof.
  unfold never_regresses.
  rewrite (HiAgentRun.subscribe_and_drain_run _ _ _ "customer 42" [])
    by reflexivity.
  change (¬ StronglySorted HiAgent.state_le [WORKING; COMPLETED; WORKING]).
  intros Hsorted.
  apply StronglySorted_cons in Hsorted as [_ Hsorted].
  apply StronglySorted_cons in Hsorted as [Hall _].
  apply Forall_singleton in Hall as [Heq|Hlt]; [discriminate|].
  simpl in Hlt. lia.
Qed.

Lemma states_never_regress_witness :
  StronglySorted HiAgent.state_le
    (HiAgent.observed_states "task-1"
       (HiAgent.log
          (HiAgent.subscribe_and_drain modalities_overlap
             (hi_agent (Ok done) [looking_up; done] None)
             text_request HiAgent.empty_world).2)).
Proof.
  destruct (states_never_regress modalities_overlap
              (hi_agent (Ok done) [looking_up; done] None)
              text_request ∅)
    as (Hstreamed & _); [reflexivity | intros query; reflexivity |].
  exact Hstreamed.
Defined.

(** C4, as the spec has it, fails: the core takes the notification that
    comes after the first terminal one. *)
Lemma notification_taken_after_terminal :
  ¬ stops_at_first_terminal
      (HiAgent.mkAgentStream [done; looking_up] None)
      (HiAgent.log
         (HiAgent.subscribe_and_drain modalities_overlap
            (hi_agent (Ok done) [done; looking_up] None)
            text_request HiAgent.empty_world).2).
Proof.
  unfold stops_at_first_terminal.
  rewrite (HiAgentRun.subscribe_and_drain_run _ _ _ "customer 42" [])
    by reflexivity.
  simpl. discriminate.
Qed.

Lemma stream_consumed_to_its_end_witness :
  HiAgent.consumed
    (HiAgent.log
       (HiAgent.subscribe_and_drain modalities_overlap
          (hi_agent (Ok done) [done; looking_up] None)
          text_request HiAgent.empty_world).2) = [done; looking_up].
Proof.
  destruct (stream_consumed_to_its_end modalities_overlap
              (hi_agent (Ok done) [done; looking_up] None)
              text_request "customer 42" [] ∅)
    as (_ & Hconsumed & _); [reflexivity | reflexivity |].
  exact Hconsumed.
Defined.

End Streaming.

(** ** Waiting for the remote workflow *)

Module Waiting.
Import CustomerAgent Fixtures.

Lemma polls_app l1 l2 : polls (l1 ++ l2) = polls l1 + polls l2.
Proof. unfold polls. by rewrite filter_app, length_app. Qed.

Lemma polls_rounds run_id n : polls (rounds run_id n) = n.
Proof.
  induction n as [|n IH]; [done|].
  simpl. unfold polls in *. rewrite filter_cons_True by done.
  rewrite filter_cons_False by done. simpl. by rewrite IH.
Qed.

Lemma slept_rounds run_id n : slept (rounds run_id n) = 2 * n.
Proof. induction n as [|n IH]; simpl in *; lia. Qed.

Lemma rounds_snoc run_id n :
  rounds run_id (S n) = rounds run_id n ++ [EQuery run_id; ESleep 2].
Proof. induction n as [|n IH]; [done|]. simpl in *. by rewrite IH. Qed.

Section Waiting.

Variable service : string → nat → Outcome ProcessData.
Variable run_id : string.

(** As long as the process is running, each turn of the loop is a query
    and a wait of 2. *)
Lemma wait_loop_rounds k : ∀ m l,
  (∀ i, i < k → processing_at service run_id (polls l + i)) →
  wait_loop service run_id (k + m) l =
  wait_loop service run_id m (l ++ rounds run_id k).
Proof.
  induction k as [|k IH]; intros m l Hproc.
  - by rewrite app_nil_r.
  - destruct (Hproc 0 ltac:(lia)) as (d & Hd & Hstatus).
    rewrite Nat.add_0_r in Hd.
    change (S k + m) with (S (k + m)). cbn [wait_loop].
    rewrite bind_run. unfold _query_process at 1. rewrite Hd.
    rewrite Hstatus. rewrite decide_False by done.
    rewrite decide_True by done.
    rewrite bind_run. unfold sleep at 1.
    rewrite IH.
    + by rewrite <- !app_assoc.
    + intros i Hi. rewrite !polls_app.
      change (polls [EQuery run_id]) with 1. change (polls [ESleep 2]) with 0.
      replace (polls l + 1 + 0 + i) with (polls l + S i) by lia.
      apply Hproc. lia.
Qed.

(** C7.  [_wait_for_process] against a service that always says the
    process is running raises [TimeoutError] (the ProcessTimeoutError of
    the spec) after exactly [max_retries] round trips, each followed by a
    wait of 2: with 5 retries, 5 round trips.  When the round trip number
    [k], within the retries, answers "success", after [k] rounds of
    "processing", the answer is returned; when it answers any status that
    is neither "success" nor "processing", such as "failed", [ValueError]
    (the ProcessFailedError of the spec) is raised with that status in its
    message; in both cases that round trip is the last. *)
Theorem wait_for_process_outcomes :
  ((∀ i, processing_at service run_id i) →
   ∀ max_retries : nat,
     let run := _wait_for_process service run_id (Z.of_nat max_retries) [] in
     run = (Raise (TimeoutError "Process did not complete within the expected time"),
            rounds run_id max_retries) ∧
     polls run.2 = max_retries ∧ slept run.2 = 2 * max_retries) ∧
  ((∀ i, processing_at service run_id i) →
   let run := _wait_for_process service run_id 5 [] in
   run.1 = Raise (TimeoutError "Process did not complete within the expected time") ∧
   polls run.2 = 5 ∧ slept run.2 = 10) ∧
  (∀ (max_retries k : nat) (d : ProcessData),
     k < max_retries →
     (∀ i, i < k → processing_at service run_id i) →
     service run_id k = Ok d →
     let run := _wait_for_process service run_id (Z.of_nat max_retries) [] in
     (status d = "success" →
      run = (Ok d, rounds run_id k ++ [EQuery run_id]) ∧ polls run.2 = S k) ∧
     (status d ≠ "success" → status d ≠ "processing" →
      run = (Raise (ValueError ("Process failed with status: " +:+ status d)),
             rounds run_id k ++ [EQuery run_id]) ∧
      polls run.2 = S k)).
Proof.
  assert (Htimeout : (∀ i, processing_at service run_id i) → ∀ n,
    wait_loop service run_id n [] =
    (Raise (TimeoutError "Process did not complete within the expected time"),
     rounds run_id n)).
  { intros Hproc n. rewrite <- (Nat.add_0_r n) at 1.
    by rewrite wait_loop_rounds. }
  split_and!.
  - intros Hproc max_retries run. unfold run, _wait_for_process.
    rewrite Nat2Z.id, Htimeout by done. simpl.
    by rewrite polls_rounds, slept_rounds.
  - intros Hproc run. unfold run, _wait_for_process.
    change (Z.to_nat 5) with 5. by rewrite Htimeout.
  - intros max_retries k d Hk Hproc Hd run.
    assert (Hrun : run =
      (let (o, l) := _query_process service run_id (rounds run_id k) in
       match o with
       | Ok process_data =>
           if decide (status process_data = "success") then (Ok process_data, l)
           else if decide (status process_data = "processing")
           then (sleep 2 ;;; wait_loop service run_id (max_retries - S k)) l
           else (Raise (ValueError ("Process failed with status: " +:+
                                      status process_data)), l)
       | Raise e => (Raise e, l)
       end)).
    { unfold run, _wait_for_process. rewrite Nat2Z.id.
      replace max_retries with (k + S (max_retries - S k)) at 1 by lia.
      rewrite wait_loop_rounds by (intros i Hi; by apply Hproc).
      cbn [wait_loop]. rewrite bind_run. simpl "++".
      destruct (_query_process service run_id (rounds run_id k)) as [[pd|e] l]; [|done].
      unfold ret, raise. by repeat case_decide. }
    unfold _query_process in Hrun. rewrite polls_rounds, Hd in Hrun.
    split.
    + intros Hstatus. rewrite decide_True in Hrun by done.
      rewrite Hrun. split; [done|]. simpl.
      rewrite polls_app, polls_rounds. unfold polls; simpl. lia.
    + intros Hns Hnp. rewrite !decide_False in Hrun by done.
      rewrite Hrun. split; [done|]. simpl.
      rewrite polls_app, polls_rounds. unfold polls; simpl. lia.
Qed.

End Waiting.

Lemma wait_for_process_outcomes_witness :
  ((_wait_for_process always_processing "run-1" 5 []).1 =
     Raise (TimeoutError "Process did not complete within the expected time") ∧
   polls (_wait_for_process always_processing "run-1" 5 []).2 = 5 ∧
   slept (_wait_for_process always_processing "run-1" 5 []).2 = 10) ∧
  _wait_for_process (service_after 2 "success") "run-1" 5 [] =
    (Ok (mkProcessData "success" []), rounds "run-1" 2 ++ [EQuery "run-1"]) ∧
  _wait_for_process (service_after 2 "failed") "run-1" 5 [] =
    (Raise (ValueError "Process failed with status: failed"),
     rounds "run-1" 2 ++ [EQuery "run-1"]).
Proof.
  split; [|split].
  - destruct (wait_for_process_outcomes always_processing "run-1")
      as (_ & Hfive & _).
    apply Hfive. intros i. by eexists.
  - destruct (wait_for_process_outcomes (service_after 2 "success") "run-1")
      as (_ & _ & Hanswer).
    destruct (Hanswer 5 2 (mkProcessData "success" [])) as [Hsuccess _].
    + lia.
    + intros i Hi. eexists. split; [reflexivity|].
      simpl. by rewrite decide_True.
    + reflexivity.
    + exact (proj1 (Hsuccess eq_refl)).
  - destruct (wait_for_process_outcomes (service_after 2 "failed") "run-1")
      as (_ & _ & Hanswer).
    destruct (Hanswer 5 2 (mkProcessData "failed" [])) as [_ Hfailed].
    + lia.
    + intros i Hi. eexists. split; [reflexivity|].
      simpl. by rewrite decide_True.
    + reflexivity.
    + exact (proj1 (Hfailed ltac:(discriminate) ltac:(discriminate))).
Defined.

End Waiting.

(** ** The store operations of the HiAgent manager *)

Module StoreFacts.
Import HiAgent Fixtures Notions.

(** X1.  [get_task] after [upsert_task] returns what was stored: the task
    itself, or for the parameters of a request a new task in state working
    without artifacts, whatever the store held for that id.  No other id
    changes, and a second upsert of the same argument leaves the store as
    it is. *)
Theorem upsert_then_get (arg : TaskOrParams) (w : World) :
  let task := match arg with
              | IsTask t => t
              | IsParams p => task_of_params p
              end in
  let w' := (upsert_task arg w).2 in
  get_task (task_id task) w' = (Ok (Some task), w') ∧
  (∀ id', id' ≠ task_id task → _tasks w' !! id' = _tasks w !! id') ∧
  _tasks (upsert_task arg w').2 = _tasks w'.
Proof.
  intros task w'. unfold w', get_task, upsert_task; simpl. fold task.
  split_and!.
  - by rewrite lookup_insert_eq.
  - intros id' Hne. by rewrite lookup_insert_ne.
  - by rewrite insert_insert_eq.
Qed.

Lemma upsert_then_get_witness :
  _tasks (upsert_task (IsParams (params text_request))
            (upsert_task (IsTask (invoke_task (task_of_params (params text_request)) done))
               empty_world).2).2 !! "task-1" =
    Some (task_of_params (params text_request)) ∧
  _tasks (upsert_task (IsParams (params text_request)) empty_world).2 !! "task-2" = None.
Proof.
  split.
  - destruct (upsert_then_get (IsParams (params text_request))
                (upsert_task (IsTask (invoke_task (task_of_params (params text_request)) done))
                   empty_world).2) as (Hget & _).
    exact (f_equal (λ r, match r.1 with Ok o => o | Raise _ => None end) Hget).
  - destruct (upsert_then_get (IsParams (params text_request)) empty_world)
      as (_ & Hother & _).
    rewrite (Hother "task-2"); [done|discriminate].
Defined.

Lemma update_store_not_found id status artifacts w :
  _tasks w !! id = None →
  _update_store id status artifacts w =
    (Raise (ValueError ("Task " +:+ id +:+ " not found")), w).
Proof.
  intros Hget. unfold _update_store. rewrite bind_run. unfold get_task.
  by rewrite Hget.
Qed.

(** X2.  [_update_store] of an id the store does not hold raises
    [ValueError] "Task <id> not found" and leaves the store and the log as
    they were. *)
Theorem update_store_missing (id : string) (status : TaskStatus)
    (artifacts : option (list Artifact)) (w : World) :
  _tasks w !! id = None →
  _update_store id status artifacts w =
    (Raise (ValueError ("Task " +:+ id +:+ " not found")), w).
Proof. apply update_store_not_found. Qed.

Lemma update_store_missing_witness :
  _update_store "task-9" (mkTaskStatus COMPLETED None) None empty_world =
    (Raise (ValueError "Task task-9 not found"), empty_world).
Proof. apply (update_store_missing "task-9"). reflexivity. Defined.

(** X3.  [_update_store] of a stored task returns and stores the task with
    the new status; its id, session and message stay.  Its artifacts are
    replaced by a list that is not empty and stay as they were when the
    argument is [None] or the empty list.  No other id changes. *)
Theorem update_store_present (id : string) (status : TaskStatus)
    (artifacts : option (list Artifact)) (t : Task) (w : World) :
  _tasks w !! id = Some t →
  task_id t = id →
  ∃ t' w',
    _update_store id status artifacts w = (Ok t', w') ∧
    _tasks w' !! id = Some t' ∧
    log w' = log w ++ [EUpsert t'] ∧
    task_status t' = status ∧
    task_id t' = id ∧
    task_sessionId t' = task_sessionId t ∧
    task_message t' = task_message t ∧
    task_artifacts t' =
      match artifacts with
      | Some (a :: l) => Some (a :: l)
      | _ => task_artifacts t
      end ∧
    ∀ id', id' ≠ id → _tasks w' !! id' = _tasks w !! id'.
Proof.
  intros Hget Hid.
  unfold _update_store. rewrite bind_run. unfold get_task. rewrite Hget.
  rewrite bind_run. unfold upsert_task, ret.
  destruct artifacts as [[|a l]|]; simpl; rewrite Hid.
  all: eexists _, _; split_and!; [reflexivity|..]; simpl.
  all: try done.
  all: try apply lookup_insert_eq.
  all: intros id' Hne; by rewrite lookup_insert_ne.
Qed.

Lemma update_store_present_witness :
  ∃ t' w',
    _update_store "task-1" (mkTaskStatus INPUT_REQUIRED None) (Some [])
      (upsert_task (IsTask (invoke_task (task_of_params (params text_request)) done))
         empty_world).2 = (Ok t', w') ∧
    task_status t' = mkTaskStatus INPUT_REQUIRED None ∧
    task_artifacts t' = Some [item_artifact done].
Proof.
  destruct (update_store_present "task-1" (mkTaskStatus INPUT_REQUIRED None) (Some [])
              (invoke_task (task_of_params (params text_request)) done)
              (upsert_task (IsTask (invoke_task (task_of_params (params text_request)) done))
                 empty_world).2)
    as (t' & w' & Hrun & _ & _ & Hstatus & _ & _ & _ & Hartifacts & _);
    [reflexivity | reflexivity |].
  exists t', w'. split_and!; [exact Hrun | exact Hstatus | exact Hartifacts].
Defined.

End StoreFacts.

(** ** What a send leaves in the store of the HiAgent manager *)

Module SendFacts.
Import HiAgent Fixtures Notions.

Lemma fold_item_task_id l : ∀ t, task_id (fold_left item_task l t) = task_id t.
Proof.
  induction l as [|item l IH]; intros t; [done|].
  simpl. by rewrite IH, HiAgentRun.item_task_id.
Qed.

Lemma fold_item_task_kept l : ∀ t,
  task_sessionId (fold_left item_task l t) = task_sessionId t ∧
  task_message (fold_left item_task l t) = task_message t.
Proof.
  induction l as [|item l IH]; intros t; [done|].
  simpl. destruct (IH (item_task t item)) as [-> ->].
  unfold item_task. by destruct (is_task_complete item).
Qed.

Lemma fold_item_task_status l x : ∀ t,
  task_status (fold_left item_task (l ++ [x]) t) = item_status x.
Proof.
  intros t. rewrite fold_left_app. simpl.
  unfold item_task. by destruct (is_task_complete x).
Qed.

Lemma fold_item_task_artifacts l : ∀ t,
  task_artifacts (fold_left item_task l t) =
  match last (filter (λ item, is_task_complete item = true) l) with
  | Some c => Some [item_artifact c]
  | None => task_artifacts t
  end.
Proof.
  induction l as [|x l IH] using rev_ind; intros t; [done|].
  rewrite fold_left_app, filter_app. simpl.
  unfold item_task. destruct (is_task_complete x) eqn:Hx.
  - rewrite filter_cons_True, filter_nil, last_snoc by done. done.
  - rewrite filter_cons_False, filter_nil, app_nil_r by (by rewrite Hx). apply IH.
Qed.

Section Sends.

Variable are_modalities_compatible : option (list string) → list string → bool.
Variable agent : Agent.

(** What a send can do to the store: nothing, or one entry under the id
    of the request, holding a task of that id. *)
Lemma on_send_task_store request w :
  let w' := (on_send_task are_modalities_compatible agent request w).2 in
  _tasks w' = _tasks w ∨
  ∃ t, task_id t = params_id (params request) ∧
       _tasks w' = <[params_id (params request) := t]> (_tasks w).
Proof.
  intros w'. unfold w'.
  destruct (are_modalities_compatible (acceptedOutputModes (params request))
              SUPPORTED_CONTENT_TYPES) eqn:Hok.
  - right. rewrite HiAgentRun.on_send_task_run by done.
    destruct (_get_user_query (params request)) as [query|e];
      [|by (eexists; split; [|reflexivity])].
    destruct (invoke agent query (params_sessionId (params request)));
      by (eexists; split; [|reflexivity]).
  - left. unfold on_send_task, _validate_request. by rewrite Hok.
Qed.

Lemma subscribe_and_drain_store request w :
  let w' := (subscribe_and_drain are_modalities_compatible agent request w).2 in
  _tasks w' = _tasks w ∨
  ∃ t, task_id t = params_id (params request) ∧
       _tasks w' = <[params_id (params request) := t]> (_tasks w).
Proof.
  intros w'. unfold w'.
  destruct (are_modalities_compatible (acceptedOutputModes (params request))
              SUPPORTED_CONTENT_TYPES) eqn:Hok.
  - right.
    destruct (_get_user_query (params request)) as [query|e] eqn:Hquery.
    + unfold _get_user_query in Hquery.
      destruct (parts (params_message (params request)))
        as [|[text|kind] rest] eqn:Hparts; [done| |done].
      injection Hquery as ->.
      rewrite (HiAgentRun.subscribe_and_drain_run _ _ _ query rest) by done.
      eexists. split; [|done]. by rewrite fold_item_task_id.
    + rewrite (HiAgentRun.subscribe_and_drain_no_query _ _ _ e) by done.
      by (eexists; split; [|reflexivity]).
  - left. unfold subscribe_and_drain, on_send_task_subscribe, _validate_request.
    by rewrite Hok.
Qed.

(** X4.  A synchronous send of a compatible request with a text query on
    which [agent.invoke] returns a result: the response carries the task
    the store then holds for the id.  Its state is input-required when the
    result asks for user input and completed otherwise; its status message
    and its one artifact are the text of the result; session and message
    are those of the request. *)
Theorem on_send_task_result
    (request : Request) (query : string) (rest : list Part) (result : Item)
    (w : World) :
  are_modalities_compatible (acceptedOutputModes (params request))
    SUPPORTED_CONTENT_TYPES = true →
  parts (params_message (params request)) = TextPart query :: rest →
  invoke agent query (params_sessionId (params request)) = Ok result →
  ∃ t,
    (on_send_task are_modalities_compatible agent request w).1 =
      Ok (Result (request_id request) t) ∧
    _tasks (on_send_task are_modalities_compatible agent request w).2
      !! params_id (params request) = Some t ∧
    task_id t = params_id (params request) ∧
    task_sessionId t = Some (params_sessionId (params request)) ∧
    task_message t = Some (params_message (params request)) ∧
    task_status t =
      mkTaskStatus
        (if get_require_user_input result then INPUT_REQUIRED else COMPLETED)
        (Some (mkMessage "agent" [TextPart (content result)])) ∧
    task_artifacts t = Some [item_artifact result].
Proof.
  intros Hok Hparts Hinvoke.
  rewrite HiAgentRun.on_send_task_run by done.
  unfold _get_user_query. rewrite Hparts, Hinvoke; simpl.
  eexists. split_and!; [done|apply lookup_insert_eq|done..].
Qed.

(** X5.  A synchronous send of a compatible request with a text query on
    which [agent.invoke] raises [e]: the call raises [ValueError] "Error
    invoking agent: <message of e>".  Only the initial upsert wrote the
    store: the task of the request is left in state working, without a
    status message and without artifacts. *)
Theorem on_send_task_invoke_raises
    (request : Request) (query : string) (rest : list Part) (e : Exn)
    (w : World) :
  are_modalities_compatible (acceptedOutputModes (params request))
    SUPPORTED_CONTENT_TYPES = true →
  parts (params_message (params request)) = TextPart query :: rest →
  invoke agent query (params_sessionId (params request)) = Raise e →
  let run := on_send_task are_modalities_compatible agent request w in
  run.1 = Raise (ValueError ("Error invoking agent: " +:+ str e)) ∧
  _tasks run.2 !! params_id (params request) =
    Some (task_of_params (params request)) ∧
  task_status (task_of_params (params request)) = mkTaskStatus WORKING None ∧
  writes (log run.2) = writes (log w) ++ [task_of_params (params request)].
Proof.
  intros Hok Hparts Hinvoke run. unfold run.
  rewrite HiAgentRun.on_send_task_run by done.
  unfold _get_user_query. rewrite Hparts, Hinvoke; simpl.
  split_and!; [done|apply lookup_insert_eq|done|].
  by rewrite HiAgentRun.writes_app.
Qed.

(** X6.  Whatever the request and the agent, a synchronous send and a
    subscription iterated to its end leave the tasks of all other ids as
    they were. *)
Theorem sends_leave_other_tasks (request : Request) (w : World) (id' : string) :
  id' ≠ params_id (params request) →
  _tasks (on_send_task are_modalities_compatible agent request w).2 !! id' =
    _tasks w !! id' ∧
  _tasks (subscribe_and_drain are_modalities_compatible agent request w).2 !! id' =
    _tasks w !! id'.
Proof.
  intros Hne. split.
  - destruct (on_send_task_store request w) as [->|(t & _ & ->)]; [done|].
    by rewrite lookup_insert_ne.
  - destruct (subscribe_and_drain_store request w) as [->|(t & _ & ->)]; [done|].
    by rewrite lookup_insert_ne.
Qed.

(** X7.  When every task of the store is stored under its own id, this is
    still so after a synchronous send and after a subscription iterated to
    its end, whatever the request and the agent. *)
Theorem sends_keep_store_keyed_by_id (request : Request) (w : World) :
  keyed_by_id (_tasks w) →
  keyed_by_id (_tasks (on_send_task are_modalities_compatible agent request w).2) ∧
  keyed_by_id (_tasks (subscribe_and_drain are_modalities_compatible agent request w).2).
Proof.
  intros Hkeyed.
  assert (Hinsert : ∀ t, task_id t = params_id (params request) →
            keyed_by_id (<[params_id (params request) := t]> (_tasks w))).
  { intros t Ht key t' Hget.
    destruct (decide (key = params_id (params request))) as [->|Hne].
    - rewrite lookup_insert_eq in Hget. by injection Hget as <-.
    - rewrite lookup_insert_ne in Hget by done. by apply Hkeyed. }
  split.
  - destruct (on_send_task_store request w) as [->|(t & Ht & ->)]; auto.
  - destruct (subscribe_and_drain_store request w) as [->|(t & Ht & ->)]; auto.
Qed.

(** X8.  After a subscription to a compatible request with a text query
    is iterated to its end, the stored task has the status of the last
    notification of the stream (state working without message when there
    was none) and the artifact of the last notification that had
    [is_task_complete] set (none when there was none): later
    notifications without that flag keep the artifact.  Its id, session
    and message are those of the request. *)
Theorem subscription_final_task
    (request : Request) (query : string) (rest : list Part) (w : World) :
  are_modalities_compatible (acceptedOutputModes (params request))
    SUPPORTED_CONTENT_TYPES = true →
  parts (params_message (params request)) = TextPart query :: rest →
  let l := items (stream agent query (params_sessionId (params request))) in
  ∃ t,
    _tasks (subscribe_and_drain are_modalities_compatible agent request w).2
      !! params_id (params request) = Some t ∧
    task_id t = params_id (params request) ∧
    task_sessionId t = Some (params_sessionId (params request)) ∧
    task_message t = Some (params_message (params request)) ∧
    task_status t =
      match last l with
      | Some item => item_status item
      | None => mkTaskStatus WORKING None
      end ∧
    task_artifacts t =
      match last (filter (λ item, is_task_complete item = true) l) with
      | Some c => Some [item_artifact c]
      | None => None
      end.
Proof.
  intros Hok Hparts l.
  rewrite (HiAgentRun.subscribe_and_drain_run _ _ _ query rest) by done.
  fold l. simpl. eexists. split_and!.
  - apply lookup_insert_eq.
  - by rewrite fold_item_task_id.
  - by rewrite (proj1 (fold_item_task_kept _ _)).
  - by rewrite (proj2 (fold_item_task_kept _ _)).
  - destruct l as [|x l'] using rev_ind; [done|].
    by rewrite fold_item_task_status, last_snoc.
  - by rewrite fold_item_task_artifacts.
Qed.

End Sends.

Lemma on_send_task_result_witness :
  ∃ t,
    (on_send_task modalities_overlap (hi_agent (Ok ask_id) [] None)
       text_request empty_world).1 = Ok (Result "req-1" t) ∧
    state (task_status t) = INPUT_REQUIRED ∧
    task_artifacts t = Some [item_artifact ask_id].
Proof.
  destruct (on_send_task_result modalities_overlap (hi_agent (Ok ask_id) [] None)
              text_request "customer 42" [] ask_id empty_world)
    as (t & Hrun & _ & _ & _ & _ & Hstatus & Hartifacts);
    [reflexivity | reflexivity | reflexivity |].
  exists t. split_and!; [exact Hrun | by rewrite Hstatus | exact Hartifacts].
Defined.

Lemma on_send_task_invoke_raises_witness :
  (on_send_task modalities_overlap (hi_agent (Raise unreachable) [] None)
     text_request empty_world).1 =
    Raise (ValueError "Error invoking agent: backend unreachable") ∧
  _tasks (on_send_task modalities_overlap (hi_agent (Raise unreachable) [] None)
            text_request empty_world).2 !! "task-1" =
    Some (task_of_params (params text_request)).
Proof.
  destruct (on_send_task_invoke_raises modalities_overlap
              (hi_agent (Raise unreachable) [] None)
              text_request "customer 42" [] unreachable empty_world)
    as (Hraise & Hget & _); [reflexivity | reflexivity | reflexivity |].
  split; [exact Hraise | exact Hget].
Defined.

Lemma sends_leave_other_tasks_witness :
  _tasks (subscribe_and_drain modalities_overlap
            (hi_agent (Ok done) [looking_up; done] None) text_request
            empty_world).2 !! "task-2" = None.
Proof.
  destruct (sends_leave_other_tasks modalities_overlap
              (hi_agent (Ok done) [looking_up; done] None) text_request
              empty_world "task-2") as [_ Hdrain]; [discriminate|].
  exact Hdrain.
Defined.

Lemma sends_keep_store_keyed_by_id_witness :
  keyed_by_id
    (_tasks (on_send_task modalities_overlap (hi_agent (Ok done) [] None)
               text_request empty_world).2).
Proof.
  destruct (sends_keep_store_keyed_by_id modalities_overlap
              (hi_agent (Ok done) [] None) text_request empty_world)
    as [Hsend _]; [|exact Hsend].
  intros key t Hget. simpl in Hget. by rewrite lookup_empty in Hget.
Defined.

Lemma subscription_final_task_witness :
  ∃ t,
    _tasks (subscribe_and_drain modalities_overlap
              (hi_agent (Ok done) [done; looking_up] None) text_request
              empty_world).2 !! "task-1" = Some t ∧
    state (task_status t) = WORKING ∧
    task_artifacts t = Some [item_artifact done].
Proof.
  destruct (subscription_final_task modalities_overlap
              (hi_agent (Ok done) [done; looking_up] None) text_request
              "customer 42" [] empty_world)
    as (t & Hget & _ & _ & _ & Hstatus & Hartifacts);
    [reflexivity | reflexivity |].
  exists t. split_and!; [exact Hget | by rewrite Hstatus | exact Hartifacts].
Defined.

End SendFacts.

(** ** The order of writes and responses in a subscription *)

Module StreamOrder.
Import HiAgent Fixtures Notions.

(** In the effects of a stream, a status update comes right after the
    write of a task with that status. *)
Lemma stream_effects_write_before_yield request tail l : ∀ t l1 l2 rid tid status final,
  (∀ l1 l2 rid tid status final,
     tail ≠ l1 ++ EYield (Result rid (TaskStatusUpdateEvent tid status final)) :: l2) →
  task_id t = params_id (params request) →
  stream_effects request t l ++ tail =
    l1 ++ EYield (Result rid (TaskStatusUpdateEvent tid status final)) :: l2 →
  ∃ l0 t', l1 = l0 ++ [EUpsert t'] ∧ task_status t' = status ∧ task_id t' = tid.
Proof.
  induction l as [|item l IH]; intros t l1 l2 rid tid status final Htail Hid Heq.
  - simpl in Heq. by destruct (Htail l1 l2 rid tid status final).
  - cbn [stream_effects] in Heq. unfold item_effects, item_responses in Heq.
    simpl in Heq.
    destruct l1 as [|e1 l1]; [discriminate|]. injection Heq as <- Heq.
    destruct l1 as [|e2 l1]; [discriminate|]. injection Heq as <- Heq.
    destruct l1 as [|e3 l1].
    { injection Heq as Hrid Htid Hstatus Hfinal _.
      exists [ENext item], (item_task t item). split_and!; [done| |].
      - rewrite <- Hstatus. unfold item_task.
        by destruct (is_task_complete item).
      - by rewrite HiAgentRun.item_task_id, Hid, <- Htid. }
    injection Heq as <- Heq.
    assert (Hid' : task_id (item_task t item) = params_id (params request))
      by (by rewrite HiAgentRun.item_task_id).
    destruct (is_task_complete item); simpl in Heq.
    + destruct l1 as [|e4 l1]; [discriminate|]. injection Heq as <- Heq.
      destruct (IH _ _ _ _ _ _ _ Htail Hid' Heq) as (l0 & t' & -> & Hst & Htid).
      by eexists (_ :: _ :: _ :: _ :: l0), t'.
    + destruct (IH _ _ _ _ _ _ _ Htail Hid' Heq) as (l0 & t' & -> & Hst & Htid).
      by eexists (_ :: _ :: _ :: l0), t'.
Qed.

Lemma failure_effects_no_status_update request f l1 l2 rid tid status final :
  failure_effects request f ≠
  l1 ++ EYield (Result rid (TaskStatusUpdateEvent tid status final)) :: l2.
Proof.
  destruct f as [e|]; simpl.
  - destruct l1 as [|? [|? ?]]; discriminate.
  - by destruct l1.
Qed.

Section Order.

Variable are_modalities_compatible : option (list string) → list string → bool.
Variable agent : Agent.

(** X9.  In a subscription to a compatible request with a text query,
    every status update yielded to the subscriber comes right after the
    write that stored a task of the same id with that status: the
    subscriber never sees a status the store does not hold. *)
Theorem status_update_follows_its_write
    (request : Request) (query : string) (rest : list Part) (tasks : gmap string Task)
    (l1 l2 : list Effect) (rid tid : string) (status : TaskStatus) (final : bool) :
  are_modalities_compatible (acceptedOutputModes (params request))
    SUPPORTED_CONTENT_TYPES = true →
  parts (params_message (params request)) = TextPart query :: rest →
  log (subscribe_and_drain are_modalities_compatible agent request
         (mkWorld tasks [])).2 =
    l1 ++ EYield (Result rid (TaskStatusUpdateEvent tid status final)) :: l2 →
  ∃ l0 t, l1 = l0 ++ [EUpsert t] ∧ task_status t = status ∧ task_id t = tid.
Proof.
  intros Hok Hparts Hlog.
  rewrite (HiAgentRun.subscribe_and_drain_run _ _ _ query rest) in Hlog by done.
  simpl in Hlog.
  destruct l1 as [|e1 l1]; [discriminate|]. injection Hlog as <- Hlog.
  eapply stream_effects_write_before_yield in Hlog
      as (l0 & t & -> & Hstatus & Htid); [|apply failure_effects_no_status_update|done].
  by exists (EUpsert (task_of_params (params request)) :: l0), t.
Qed.

(** X10.  The generator run on a store that does not hold the task of the
    request (a text query, a stream with a first notification): it takes
    that one notification, writes nothing, yields one error response
    "Task <id> not found" and ends. *)
Theorem generator_without_stored_task
    (request : Request) (query : string) (rest : list Part)
    (first : Item) (others : list Item) (w : World) :
  parts (params_message (params request)) = TextPart query :: rest →
  _tasks w !! params_id (params request) = None →
  items (stream agent query (params_sessionId (params request))) = first :: others →
  _stream_generator agent request w =
    (Ok tt,
     mkWorld (_tasks w)
       (log w ++
        [ENext first;
         EYield (Error (request_id request)
                   (InternalError
                      ("Task " +:+ params_id (params request) +:+ " not found")))])).
Proof.
  intros Hparts Hget Hitems.
  unfold _stream_generator, _get_user_query, lift. rewrite bind_run, Hparts.
  unfold try_except, async_for. rewrite bind_run, Hitems. cbn [for_each].
  rewrite !bind_run. unfold emit at 1. unfold stream_body.
  destruct (item_state first) as [task_state end_stream].
  rewrite bind_run.
  rewrite (StoreFacts.update_store_not_found (params_id (params request))) by done.
  unfold yield, emit; simpl. by rewrite <- app_assoc.
Qed.

(** X11.  The two sends agree on a complete result: when [agent.invoke]
    returns the notification that is the whole stream of the agent and
    that notification has [is_task_complete] set, the synchronous send
    and the subscription store the same task.  They differ on a
    notification without that flag: the synchronous send stores its text
    as an artifact, the subscription stores no artifact. *)
Theorem sends_agree_on_complete_result
    (request : Request) (query : string) (rest : list Part) (item : Item)
    (w : World) :
  are_modalities_compatible (acceptedOutputModes (params request))
    SUPPORTED_CONTENT_TYPES = true →
  parts (params_message (params request)) = TextPart query :: rest →
  invoke agent query (params_sessionId (params request)) = Ok item →
  stream agent query (params_sessionId (params request)) =
    mkAgentStream [item] None →
  let sent := _tasks (on_send_task are_modalities_compatible agent request w).2
                !! params_id (params request) in
  let streamed := _tasks (subscribe_and_drain are_modalities_compatible agent request w).2
                    !! params_id (params request) in
  (is_task_complete item = true → sent = streamed) ∧
  (is_task_complete item = false →
   (task_artifacts <$> sent) = Some (Some [item_artifact item]) ∧
   (task_artifacts <$> streamed) = Some None).
Proof.
  intros Hok Hparts Hinvoke Hstream sent streamed.
  unfold sent, streamed.
  rewrite HiAgentRun.on_send_task_run by done.
  rewrite (HiAgentRun.subscribe_and_drain_run _ _ _ query rest) by done.
  unfold _get_user_query. rewrite Hparts, Hinvoke, Hstream; simpl.
  rewrite !lookup_insert_eq.
  unfold item_task, invoke_task, item_status, item_state.
  split; intros Hc; rewrite Hc; simpl; [|done].
  by destruct (get_require_user_input item).
Qed.

End Order.

Lemma status_update_follows_its_write_witness :
  ∃ l0 t,
    [EUpsert (task_of_params (params text_request)); ENext done;
     EUpsert (item_task (task_of_params (params text_request)) done)] =
      l0 ++ [EUpsert t] ∧
    task_status t = item_status done.
Proof.
  destruct (status_update_follows_its_write modalities_overlap
              (hi_agent (Ok done) [done] None) text_request "customer 42" [] ∅
              [EUpsert (task_of_params (params text_request)); ENext done;
               EUpsert (item_task (task_of_params (params text_request)) done)]
              [EYield (artifact_update text_request done)]
              "req-1" "task-1" (item_status done) true)
    as (l0 & t & Heq & Hstatus & _); [reflexivity | reflexivity | reflexivity |].
  by exists l0, t.
Defined.

Lemma generator_without_stored_task_witness :
  responses
    (log (_stream_generator (hi_agent (Ok done) [looking_up; done] None)
            text_request empty_world).2) =
    [Error "req-1" (InternalError "Task task-1 not found")].
Proof.
  rewrite (generator_without_stored_task
             (hi_agent (Ok done) [looking_up; done] None) text_request
             "customer 42" [] looking_up [done] empty_world);
    reflexivity.
Defined.

Lemma sends_agree_on_complete_result_witness :
  _tasks (on_send_task modalities_overlap (hi_agent (Ok done) [done] None)
            text_request empty_world).2 !! "task-1" =
  _tasks (subscribe_and_drain modalities_overlap (hi_agent (Ok done) [done] None)
            text_request empty_world).2 !! "task-1".
Proof.
  destruct (sends_agree_on_complete_result modalities_overlap
              (hi_agent (Ok done) [done] None) text_request "customer 42" [] done
              empty_world) as [Hsame _];
    [reflexivity | reflexivity | reflexivity | reflexivity |].
  exact (Hsame eq_refl).
Defined.

End StreamOrder.

(** ** The bounds of the wait for the remote workflow *)

Module WaitBounds.
Import CustomerAgent Fixtures.

Lemma slept_app l1 l2 : slept (l1 ++ l2) = slept l1 + slept l2.
Proof.
  induction l1 as [|[run_id|seconds] l1 IH]; simpl; [done|done|].
  rewrite IH. lia.
Qed.

Section Bounds.

Variable service : string → nat → Outcome ProcessData.
Variable run_id : string.

(** The loop appends to the log, at most [n] round trips and at most
    [n] waits of 2. *)
Lemma wait_loop_bounded n : ∀ l,
  ∃ l', (wait_loop service run_id n l).2 = l ++ l' ∧
        polls l' ≤ n ∧ slept l' ≤ 2 * n.
Proof.
  induction n as [|n IH]; intros l.
  - exists []. simpl. by rewrite app_nil_r.
  - cbn [wait_loop]. rewrite bind_run. unfold _query_process at 1.
    destruct (service run_id (polls l)) as [d|e].
    + case_decide.
      { exists [EQuery run_id]. split; [done|]. unfold polls; simpl. lia. }
      case_decide.
      * rewrite bind_run. unfold sleep at 1.
        destruct (IH ((l ++ [EQuery run_id]) ++ [ESleep 2])) as (l' & -> & Hp & Hs).
        exists (EQuery run_id :: ESleep 2 :: l').
        split; [by rewrite <- !app_assoc|].
        change (EQuery run_id :: ESleep 2 :: l')
          with ([EQuery run_id; ESleep 2] ++ l').
        rewrite Waiting.polls_app, slept_app.
        change (polls [EQuery run_id; ESleep 2]) with 1.
        change (slept [EQuery run_id; ESleep 2]) with 2. lia.
      * exists [EQuery run_id]. split; [done|]. unfold polls; simpl. lia.
    + exists [EQuery run_id]. split; [done|]. unfold polls; simpl. lia.
Qed.

(** X12.  Whatever the remote service answers, [_wait_for_process] makes
    at most [max_retries] round trips and waits at most 2 for each of
    them; with no retry to make it makes none. *)
Theorem wait_for_process_bounded (max_retries : Z) :
  let run := _wait_for_process service run_id max_retries [] in
  polls run.2 ≤ Z.to_nat max_retries ∧
  slept run.2 ≤ 2 * Z.to_nat max_retries.
Proof.
  intros run. unfold run, _wait_for_process.
  destruct (wait_loop_bounded (Z.to_nat max_retries) []) as (l' & -> & Hp & Hs).
  done.
Qed.

(** X13.  With [max_retries] zero or negative [_wait_for_process] raises
    [TimeoutError] at once: the service is not asked. *)
Theorem wait_for_process_without_retries (max_retries : Z) :
  (max_retries ≤ 0)%Z →
  _wait_for_process service run_id max_retries [] =
    (Raise (TimeoutError "Process did not complete within the expected time"), []).
Proof.
  intros Hmax. unfold _wait_for_process.
  by replace (Z.to_nat max_retries) with 0 by lia.
Qed.

(** X14.  An exception of a round trip is not retried: when the round
    trip number [k], within the retries and after [k] answers
    "processing", raises [e], [_wait_for_process] raises [e] after that
    round trip, without a wait and without another round trip. *)
Theorem wait_for_process_query_raises (max_retries k : nat) (e : Exn) :
  k < max_retries →
  (∀ i, i < k → processing_at service run_id i) →
  service run_id k = Raise e →
  _wait_for_process service run_id (Z.of_nat max_retries) [] =
    (Raise e, rounds run_id k ++ [EQuery run_id]).
Proof.
  intros Hk Hproc He. unfold _wait_for_process. rewrite Nat2Z.id.
  replace max_retries with (k + S (max_retries - S k)) by lia.
  rewrite Waiting.wait_loop_rounds by (intros i Hi; by apply Hproc).
  cbn [wait_loop]. rewrite bind_run. unfold _query_process. simpl.
  by rewrite Waiting.polls_rounds, He.
Qed.

End Bounds.

Lemma wait_for_process_without_retries_witness :
  _wait_for_process always_processing "run-1" (-3) [] =
    (Raise (TimeoutError "Process did not complete within the expected time"), []).
Proof. apply wait_for_process_without_retries. lia. Defined.

Lemma wait_for_process_query_raises_witness :
  _wait_for_process
    (λ run_id k, if decide (k < 2) then always_processing run_id k
                 else Raise unreachable) "run-1" 5 [] =
    (Raise unreachable, rounds "run-1" 2 ++ [EQuery "run-1"]).
Proof.
  apply (wait_for_process_query_raises _ "run-1" 5 2 unreachable).
  - lia.
  - intros i Hi. eexists. split; [by rewrite decide_True|reflexivity].
  - reflexivity.
Defined.

End WaitBounds.

(** ** The customer in the nodes of a process *)

Module ExtractionFacts.
Import Json CustomerAgent Samples.

Section Extraction.

Variable json_loads : string → option JSON.

Lemma scan_nodes_skip pre : ∀ rest,
  Forall (λ entry, scan_node json_loads entry.2 = Next) pre →
  scan_nodes json_loads (pre ++ rest) = scan_nodes json_loads rest.
Proof.
  induction pre as [|[node_id node] pre IH]; intros rest Hpre; [done|].
  apply Forall_cons in Hpre as [Hnode Hpre]. simpl in *.
  rewrite Hnode. by apply IH.
Qed.

(** X15.  [_extract_customer_details] reads the nodes in the order of
    the dictionary: after nodes that decide nothing, the first node that
    returns a value or raises decides the result, whatever the nodes after
    it hold; a node that raises gives [None]. *)
Theorem extract_first_deciding_node
    (fields pre rest : list (string * JSON)) (node_id : string) (node : JSON) :
  assoc "nodes" fields = Some (JObj (pre ++ (node_id, node) :: rest)) →
  Forall (λ entry, scan_node json_loads entry.2 = Next) pre →
  _extract_customer_details json_loads (JObj fields) =
    match scan_node json_loads node with
    | Found v => v
    | Next => scan_nodes json_loads rest
    | Failed => JNull
    end.
Proof.
  intros Hnodes Hpre. unfold _extract_customer_details.
  destruct fields as [|field fields]; [done|]. rewrite Hnodes. simpl.
  destruct (pre ++ (node_id, node) :: rest) as [|n ns] eqn:Heq.
  { by destruct pre. }
  rewrite <- Heq. by rewrite scan_nodes_skip.
Qed.

(** X16.  The customer of an "end" node: when the nodes before it decide
    nothing and its output decodes to a dictionary with the key "output",
    the value of that key is the result. *)
Theorem extract_end_node_output
    (fields pre rest node : list (string * JSON)) (node_id text : string)
    (output : list (string * JSON)) (v : JSON) :
  assoc "nodes" fields = Some (JObj (pre ++ (node_id, JObj node) :: rest)) →
  Forall (λ entry, scan_node json_loads entry.2 = Next) pre →
  assoc "nodeType" node = Some (JStr "end") →
  assoc "output" node = Some (JStr text) →
  json_loads text = Some (JObj output) →
  assoc "output" output = Some v →
  _extract_customer_details json_loads (JObj fields) = v.
Proof.
  intros Hnodes Hpre Htype Houtput Hloads Hv.
  unfold _extract_customer_details.
  destruct fields as [|field fields]; [done|]. rewrite Hnodes. simpl.
  destruct (pre ++ (node_id, JObj node) :: rest) as [|n ns] eqn:Heq.
  { by destruct pre. }
  rewrite <- Heq, scan_nodes_skip by done.
  cbn [scan_nodes]. unfold scan_node, py_get, node_output.
  rewrite Htype, Houtput; simpl. rewrite Hloads; simpl. by rewrite Hv.
Qed.

(** X17.  An output that does not decode hides the nodes after it: when
    the first node that is an "end" or an "http_request" node has an
    output [json.loads] rejects, the result is [None] even if a later node
    holds the customer. *)
Theorem extract_undecodable_output
    (fields pre rest node : list (string * JSON)) (node_id kind text : string) :
  assoc "nodes" fields = Some (JObj (pre ++ (node_id, JObj node) :: rest)) →
  Forall (λ entry, scan_node json_loads entry.2 = Next) pre →
  assoc "nodeType" node = Some (JStr kind) →
  kind = "end" ∨ kind = "http_request" →
  assoc "output" node = Some (JStr text) →
  json_loads text = None →
  _extract_customer_details json_loads (JObj fields) = JNull.
Proof.
  intros Hnodes Hpre Htype Hkind Houtput Hloads.
  unfold _extract_customer_details.
  destruct fields as [|field fields]; [done|]. rewrite Hnodes. simpl.
  destruct (pre ++ (node_id, JObj node) :: rest) as [|n ns] eqn:Heq.
  { by destruct pre. }
  rewrite <- Heq, scan_nodes_skip by done.
  cbn [scan_nodes]. unfold scan_node, py_get, node_output.
  rewrite Htype, Houtput; simpl. rewrite Hloads.
  by destruct Hkind as [-> | ->].
Qed.

End Extraction.

Lemma extract_first_deciding_node_witness :
  _extract_customer_details loads
    (process_of [("n1", start_node); ("n2", http_node); ("n3", end_node)]) =
    customer.
Proof.
  unfold process_of.
  rewrite (extract_first_deciding_node loads _ [("n1", start_node)]
             [("n3", end_node)] "n2" http_node);
    [reflexivity | reflexivity | by repeat constructor].
Defined.

Lemma extract_end_node_output_witness :
  _extract_customer_details loads
    (process_of [("n1", start_node); ("n3", end_node)]) = customer.
Proof.
  unfold process_of.
  apply (extract_end_node_output loads _ [("n1", start_node)] []
           [("nodeType", JStr "end"); ("output", JStr "end-output")]
           "n3" "end-output" [("output", customer)] customer);
    try reflexivity.
  by repeat constructor.
Defined.

Lemma extract_undecodable_output_witness :
  _extract_customer_details loads
    (process_of [("n1", start_node); ("n2", broken_node); ("n3", end_node)]) =
    JNull.
Proof.
  unfold process_of.
  apply (extract_undecodable_output loads _ [("n1", start_node)]
           [("n3", end_node)]
           [("nodeType", JStr "http_request"); ("output", JStr "<html>")]
           "n2" "http_request" "<html>");
    try reflexivity.
  - by repeat constructor.
  - by right.
Defined.

End ExtractionFacts.

(** ** The HiAgent manager with the customer agent *)

Module CustomerAgentFacts.
Import Json CustomerAgent HiAgent Fixtures Samples Notions.

Section Facts.

Variable are_modalities_compatible : option (list string) → list string → bool.
Variable service : string → nat → Outcome ProcessData.
Variable _run_workflow : string → Outcome JSON.
Variable json_loads : string → option JSON.
Variable as_json : ProcessData → JSON.
Variable digits_of : string → string.
Variable repr : JSON → string.

Local Abbreviation the_stream :=
  (CustomerAgent.stream service _run_workflow json_loads as_json digits_of repr).
Local Abbreviation the_agent :=
  (CustomerAgent.agent service _run_workflow json_loads as_json digits_of repr).

Lemma wait_times_out run_id :
  (∀ i, processing_at service run_id i) →
  (_wait_for_process service run_id 5 []).1 =
    Raise (TimeoutError "Process did not complete within the expected time").
Proof.
  intros Hproc. unfold _wait_for_process. change (Z.to_nat 5) with (5 + 0).
  by rewrite Waiting.wait_loop_rounds.
Qed.

Lemma wait_succeeds run_id k d :
  k < 5 →
  (∀ i, i < k → processing_at service run_id i) →
  service run_id k = Ok d →
  CustomerAgent.status d = "success" →
  (_wait_for_process service run_id 5 []).1 = Ok d.
Proof.
  intros Hk Hproc Hd Hstatus. unfold _wait_for_process.
  change (Z.to_nat 5) with 5.
  replace 5 with (k + S (5 - S k)) by lia.
  rewrite Waiting.wait_loop_rounds by (intros i Hi; by apply Hproc).
  cbn [wait_loop]. rewrite bind_run. unfold _query_process. simpl.
  rewrite Waiting.polls_rounds, Hd. by rewrite decide_True.
Qed.

(** X18.  Whatever the query and whatever the remote service and the
    decoders do, the stream of [HiAgentCustomerAgent] is at most two
    notifications without a flag, then exactly one notification with
    [is_task_complete] or [require_user_input] set, and it raises no
    exception. *)
Theorem customer_stream_contract (query session_id : string) :
  ∃ pre t,
    the_stream query session_id = mkAgentStream (pre ++ [t]) None ∧
    Forall (λ item, terminal item = false) pre ∧
    terminal t = true ∧
    length pre ≤ 2.
Proof. apply CustomerAgentStream.stream_follows_contract. Qed.

(** X19.  A subscription whose query holds no digit: whatever the
    workflow and the remote service would answer, the subscriber gets one
    status update, input-required and final, carrying the request for a
    customer id, and no artifact; the stored task is input-required
    without artifacts. *)
Theorem subscription_without_digits
    (request : Request) (query : string) (rest : list Part)
    (tasks : gmap string Task) :
  are_modalities_compatible (acceptedOutputModes (params request))
    SUPPORTED_CONTENT_TYPES = true →
  parts (params_message (params request)) = TextPart query :: rest →
  digits_of query = "" →
  let ask := mkItem false (Some true)
               "Please provide a valid customer ID (numbers only)." in
  let run := subscribe_and_drain are_modalities_compatible the_agent request
               (mkWorld tasks []) in
  responses (log run.2) =
    [Result (request_id request)
       (TaskStatusUpdateEvent (params_id (params request))
          (mkTaskStatus INPUT_REQUIRED
             (Some (mkMessage "agent" [TextPart (content ask)]))) true)] ∧
  ∃ t, _tasks run.2 !! params_id (params request) = Some t ∧
       state (task_status t) = INPUT_REQUIRED ∧
       task_artifacts t = None.
Proof.
  intros Hok Hparts Hdigits ask run. unfold run.
  rewrite (HiAgentRun.subscribe_and_drain_run _ _ _ query rest) by done.
  simpl. unfold CustomerAgent.stream. rewrite Hdigits. simpl.
  split; [done|]. eexists. by rewrite lookup_insert_eq.
Qed.

(** X20.  A subscription whose workflow never leaves "processing": after
    the two progress notifications the agent reports the timeout of the
    wait as a complete notification, so the stored task ends completed,
    with the text of the failure as its artifact, and not in an error
    state. *)
Theorem subscription_workflow_timeout
    (request : Request) (query : string) (rest : list Part)
    (response run_id : JSON) (tasks : gmap string Task) :
  are_modalities_compatible (acceptedOutputModes (params request))
    SUPPORTED_CONTENT_TYPES = true →
  parts (params_message (params request)) = TextPart query :: rest →
  digits_of query ≠ "" →
  _run_workflow (digits_of query) = Ok response →
  py_get response "runId" = Some run_id →
  Json.truthy run_id = true →
  (∀ i, processing_at service (py_str repr run_id) i) →
  let failed :=
    mkItem true None
      "Failed to retrieve customer details: Process did not complete within the expected time" in
  let run := subscribe_and_drain are_modalities_compatible the_agent request
               (mkWorld tasks []) in
  last (items (the_stream query (params_sessionId (params request)))) = Some failed ∧
  length (items (the_stream query (params_sessionId (params request)))) = 3 ∧
  ∃ t, _tasks run.2 !! params_id (params request) = Some t ∧
       state (task_status t) = COMPLETED ∧
       task_artifacts t = Some [item_artifact failed].
Proof.
  intros Hok Hparts Hdigits Hflow Hrun Htruthy Hproc failed run.
  assert (Hstream : ∃ a b,
    the_stream query (params_sessionId (params request)) =
    mkAgentStream [a; b; failed] None ∧
    is_task_complete a = false ∧ is_task_complete b = false).
  { unfold CustomerAgent.stream. rewrite decide_False by done.
    rewrite Hflow, Hrun, Htruthy. simpl.
    rewrite wait_times_out by done. by eexists _, _. }
  destruct Hstream as (a & b & Hstream & Ha & Hb).
  unfold run.
  rewrite (HiAgentRun.subscribe_and_drain_run _ _ _ query rest) by done.
  simpl. change (CustomerAgent.stream _ _ _ _ _ _) with the_stream.
  rewrite Hstream. simpl.
  split_and!; [done|done|]. eexists. rewrite lookup_insert_eq.
  split; [done|]. unfold item_task. by rewrite Ha, Hb.
Qed.

(** X21.  A subscription whose workflow succeeds within the retries and
    whose process holds a customer with the three keys: the last
    notification is complete and its text lists first name, last name and
    email, one per line. *)
Theorem stream_reports_customer
    (query session_id : string) (response run_id : JSON)
    (k : nat) (d : ProcessData) (firstName lastName email : JSON) :
  digits_of query ≠ "" →
  _run_workflow (digits_of query) = Ok response →
  py_get response "runId" = Some run_id →
  Json.truthy run_id = true →
  k < 5 →
  (∀ i, i < k → processing_at service (py_str repr run_id) i) →
  service (py_str repr run_id) k = Ok d →
  CustomerAgent.status d = "success" →
  let details := _extract_customer_details json_loads (as_json d) in
  Json.truthy details = true →
  py_getitem details "firstName" = Some firstName →
  py_getitem details "lastName" = Some lastName →
  py_getitem details "email" = Some email →
  last (items (the_stream query session_id)) =
    Some (mkItem true None
            ("Customer Details:" +:+ newline +:+
             "First Name: " +:+ py_str repr firstName +:+ newline +:+
             "Last Name: " +:+ py_str repr lastName +:+ newline +:+
             "Email: " +:+ py_str repr email)).
Proof.
  intros Hdigits Hflow Hrun Htruthy Hk Hproc Hd Hstatus details Hdetails Hf Hl He.
  unfold CustomerAgent.stream. rewrite decide_False by done.
  rewrite Hflow, Hrun, Htruthy. simpl.
  rewrite (wait_succeeds _ k d) by done.
  unfold report. fold details. by rewrite Hdetails, Hf, Hl, He.
Qed.

(** X22.  The class of the agent defines no [invoke]: with this agent
    every synchronous send of a compatible request with a text query
    raises [ValueError] with the text of the [AttributeError], and the
    stored task stays in state working. *)
Theorem customer_agent_without_invoke
    (request : Request) (query : string) (rest : list Part) (w : World) :
  are_modalities_compatible (acceptedOutputModes (params request))
    SUPPORTED_CONTENT_TYPES = true →
  parts (params_message (params request)) = TextPart query :: rest →
  let run := on_send_task are_modalities_compatible the_agent request w in
  run.1 = Raise (ValueError
    "Error invoking agent: 'HiAgentCustomerAgent' object has no attribute 'invoke'") ∧
  _tasks run.2 !! params_id (params request) =
    Some (task_of_params (params request)).
Proof.
  intros Hok Hparts run. unfold run.
  rewrite HiAgentRun.on_send_task_run by done.
  unfold _get_user_query. rewrite Hparts; simpl.
  split; [done|]. apply lookup_insert_eq.
Qed.

End Facts.

Lemma subscription_without_digits_witness :
  ∃ t,
    _tasks (subscribe_and_drain modalities_overlap
              (CustomerAgent.agent always_processing started loads
                 (λ _, JNull) digits no_repr)
              (request_with [TextPart "hello"] ["text"])
              empty_world).2 !! "task-1" = Some t ∧
    state (task_status t) = INPUT_REQUIRED.
Proof.
  destruct (subscription_without_digits modalities_overlap always_processing
              started loads (λ _, JNull) digits no_repr
              (request_with [TextPart "hello"] ["text"]) "hello" [] ∅)
    as (_ & t & Hget & Hstate & _); [reflexivity | reflexivity | reflexivity |].
  by exists t.
Defined.

Lemma subscription_workflow_timeout_witness :
  ∃ t,
    _tasks (subscribe_and_drain modalities_overlap
              (CustomerAgent.agent always_processing started loads
                 (λ _, JNull) digits no_repr)
              text_request empty_world).2 !! "task-1" = Some t ∧
    state (task_status t) = COMPLETED.
Proof.
  destruct (subscription_workflow_timeout modalities_overlap always_processing
              started loads (λ _, JNull) digits no_repr
              text_request "customer 42" []
              (JObj [("runId", JStr "run-1")]) (JStr "run-1") ∅)
    as (_ & _ & t & Hget & Hstate & _);
    [reflexivity | reflexivity | discriminate | reflexivity | reflexivity
    | reflexivity | by (intros i; eexists) |].
  by exists t.
Defined.

Lemma stream_reports_customer_witness :
  last (items (CustomerAgent.stream (service_after 2 "success") started loads
                 (λ _, process_of [("n1", start_node); ("n3", end_node)])
                 digits no_repr "customer 42" "session-1")) =
    Some (mkItem true None
            ("Customer Details:" +:+ newline +:+
             "First Name: Sam" +:+ newline +:+
             "Last Name: Gamgee" +:+ newline +:+
             "Email: sam@example.com")).
Proof.
  apply (stream_reports_customer (service_after 2 "success") started loads
           (λ _, process_of [("n1", start_node); ("n3", end_node)])
           digits no_repr "customer 42" "session-1"
           (JObj [("runId", JStr "run-1")]) (JStr "run-1") 2
           (mkProcessData "success" []) (JStr "Sam") (JStr "Gamgee")
           (JStr "sam@example.com"));
    try reflexivity.
  - discriminate.
  - lia.
  - intros i Hi. eexists. split; [reflexivity|]. simpl. by rewrite decide_True.
Defined.

Lemma customer_agent_without_invoke_witness :
  (on_send_task modalities_overlap
     (CustomerAgent.agent always_processing started loads (λ _, JNull)
        digits no_repr)
     text_request empty_world).1 =
    Raise (ValueError
      "Error invoking agent: 'HiAgentCustomerAgent' object has no attribute 'invoke'").
Proof.
  destruct (customer_agent_without_invoke modalities_overlap always_processing
              started loads (λ _, JNull) digits no_repr
              text_request "customer 42" [] empty_world)
    as [Hraise _]; [reflexivity | reflexivity |].
  exact Hraise.
Defined.

End CustomerAgentFacts.

(** ** The agents built on a graph *)

Module LangGraphFacts.
Import LangGraph.

Lemma progress_not_terminal messages item :
  progress messages = Ok (Some item) → HiAgent.terminal item = false.
Proof.
  unfold progress.
  destruct (last messages) as [[[|call calls]| |]|]; intros H;
    by inversion H.
Qed.

Section Facts.

Variable structured_response : Outcome (option ResponseFormat).
Variable graph_failure : option Exn.

(** X23.  [get_agent_response] always ends the turn: the notification it
    builds has [is_task_complete] set exactly for a structured response
    of status completed, and asks for user input in every other case: a
    response of status error, one of status input_required, and a state
    without a structured response. *)
Theorem agent_response_ends_turn (found : option ResponseFormat) (item : Item) :
  structured_response = Ok found →
  get_agent_response structured_response = Ok item →
  HiAgent.terminal item = true ∧
  (is_task_complete item = true ↔ ∃ r, found = Some r ∧ status r = completed) ∧
  (is_task_complete item = false → get_require_user_input item = true) ∧
  (∀ r, found = Some r → content item = message r).
Proof.
  intros -> Hitem. unfold get_agent_response in Hitem.
  destruct found as [[[] text]|]; simpl in Hitem; injection Hitem as <-;
    (split_and!; [done| |done|]).
  all: try (split; [done|]; by intros (r & Hr & Hs); try (injection Hr as <-)).
  all: try (split; [|done]; intros _; by eexists).
  all: by intros r [= <-].
Qed.

(** The stream stops at the first value without a message and otherwise
    runs to the end of the graph. *)
Lemma stream_from_failure values : ∀ e,
  HiAgent.failure (stream_from structured_response graph_failure values) = Some e →
  Forall (λ item, HiAgent.terminal item = false)
    (HiAgent.items (stream_from structured_response graph_failure values)).
Proof.
  induction values as [|messages values IH]; intros e; simpl.
  - destruct graph_failure; [done|].
    by destruct (get_agent_response structured_response).
  - destruct (progress messages) as [[item|]|e'] eqn:Hprogress; simpl; [| |done].
    + intros He. constructor; [by eapply progress_not_terminal|by eapply IH].
    + apply IH.
Qed.

Lemma stream_from_contract values : ∀ t,
  graph_failure = None →
  get_agent_response structured_response = Ok t →
  Forall (λ messages, messages ≠ []) values →
  ∃ pre,
    stream_from structured_response graph_failure values =
      HiAgent.mkAgentStream (pre ++ [t]) None ∧
    Forall (λ item, HiAgent.terminal item = false) pre ∧
    length pre ≤ length values.
Proof.
  intros t Hgraph Ht.
  induction values as [|messages values IH]; intros Hvalues; simpl.
  - rewrite Hgraph, Ht. by exists [].
  - apply Forall_cons in Hvalues as [Hmessages Hvalues].
    destruct (IH Hvalues) as (pre & -> & Hpre & Hlen).
    destruct (progress messages) as [[item|]|e] eqn:Hprogress; simpl.
    + exists (item :: pre). split_and!; [done| |simpl; lia].
      constructor; [by eapply progress_not_terminal|done].
    + exists pre. split_and!; [done|done|lia].
    + unfold progress in Hprogress.
      destruct (last messages) as [[[|call calls]| |]|] eqn:Hlast;
        try discriminate.
      by apply last_None in Hlast.
Qed.

(** X24.  When the graph runs to its end without an exception, every
    value of the graph has a message and the state can be read, the
    stream of the agent is: at most one notification without a flag set
    per value of the graph, then the notification of
    [get_agent_response], which ends the turn; nothing follows it. *)
Theorem graph_stream_contract
    (graph_values : list (list GraphMessage)) (found : option ResponseFormat)
    (query sessionId : string) :
  graph_failure = None →
  structured_response = Ok found →
  Forall (λ messages, messages ≠ []) graph_values →
  ∃ pre t,
    stream structured_response graph_values graph_failure query sessionId =
      HiAgent.mkAgentStream (pre ++ [t]) None ∧
    get_agent_response structured_response = Ok t ∧
    Forall (λ item, HiAgent.terminal item = false) pre ∧
    HiAgent.terminal t = true ∧
    length pre ≤ length graph_values.
Proof.
  intros Hgraph Hfound Hvalues.
  assert (∃ t, get_agent_response structured_response = Ok t) as [t Ht].
  { unfold get_agent_response. rewrite Hfound.
    destruct found as [[[] text]|]; by eexists. }
  destruct (stream_from_contract graph_values t Hgraph Ht Hvalues)
    as (pre & Hstream & Hpre & Hlen).
  exists pre, t. split_and!; [done|done|done| |done].
  unfold get_agent_response in Ht. rewrite Hfound in Ht.
  destruct found as [[[] text]|]; simpl in Ht; by injection Ht as <-.
Qed.

(** X25.  A stream of the agent that ends with an exception (of the
    graph, of a value without a message, or of the reading of the state)
    has yielded no notification with a flag set: the subscriber of a
    failed stream never got a notification that ends the turn. *)
Theorem failed_graph_stream_has_no_terminal
    (graph_values : list (list GraphMessage)) (query sessionId : string) (e : Exn) :
  HiAgent.failure
    (stream structured_response graph_values graph_failure query sessionId) = Some e →
  Forall (λ item, HiAgent.terminal item = false)
    (HiAgent.items
       (stream structured_response graph_values graph_failure query sessionId)).
Proof. apply stream_from_failure. Qed.

End Facts.

Lemma agent_response_ends_turn_witness :
  HiAgent.terminal (mkItem false (Some true) "no such customer") = true ∧
  get_require_user_input (mkItem false (Some true) "no such customer") = true.
Proof.
  destruct (agent_response_ends_turn
              (Ok (Some (mkResponseFormat error "no such customer")))
              (Some (mkResponseFormat error "no such customer"))
              (mkItem false (Some true) "no such customer"))
    as (Hterminal & _ & Hinput & _); [reflexivity | reflexivity |].
  split; [exact Hterminal | exact (Hinput eq_refl)].
Defined.

Lemma graph_stream_contract_witness :
  ∃ pre t,
    stream (Ok (Some (mkResponseFormat completed "Sam Gamgee")))
      [[OtherMessage]; [OtherMessage; AIMessage ["get_shopify_customer"]];
       [ToolMessage]; [AIMessage []]]
      None "customer 42" "session-1" =
      HiAgent.mkAgentStream (pre ++ [t]) None ∧
    is_task_complete t = true ∧ length pre = 2.
Proof.
  destruct (graph_stream_contract
              (Ok (Some (mkResponseFormat completed "Sam Gamgee"))) None
              [[OtherMessage]; [OtherMessage; AIMessage ["get_shopify_customer"]];
               [ToolMessage]; [AIMessage []]]
              (Some (mkResponseFormat completed "Sam Gamgee"))
              "customer 42" "session-1")
    as (pre & t & Hstream & Ht & _);
    [reflexivity | reflexivity | by repeat constructor |].
  exists pre, t. split; [exact Hstream|].
  injection Ht as <-. injection Hstream as Hitems.
  split; [reflexivity|].
  apply (f_equal length) in Hitems. rewrite length_app in Hitems.
  simpl in Hitems. lia.
Defined.

Lemma failed_graph_stream_has_no_terminal_witness :
  Forall (λ item, HiAgent.terminal item = false)
    (HiAgent.items
       (stream (Ok None) [[AIMessage ["get_saral_order"]]; []] None
          "customer 42" "session-1")).
Proof.
  apply (failed_graph_stream_has_no_terminal (Ok None) None
           [[AIMessage ["get_saral_order"]]; []] "customer 42" "session-1"
           (IndexError "list index out of range")).
  reflexivity.
Defined.

End LangGraphFacts.

(** ** The CrewAI manager and the data analysis agent *)

Module DataAnalysisFacts.
Import Json CrewAI Fixtures.

Section Facts.

Variable are_modalities_compatible : option (list string) → list string → bool.

(** X26.  [DataAnalysisAgent.invoke] never raises.  Its result is the
    text of the crew when there is one, an apology when the crew returns
    nothing or an empty text, and "Error performing analysis: <message>"
    when the crew raises. *)
Theorem analysis_invoke_never_raises
    (kickoff : string → Outcome (option DataAnalysis.CrewOutput)) (query : string) :
  ∃ text,
    DataAnalysis.invoke kickoff query = Ok (mkAnalysisResult text) ∧
    (∀ e, kickoff query = Raise e → text = "Error performing analysis: " +:+ str e) ∧
    (∀ response, kickoff query = Ok (Some response) →
       DataAnalysis.raw response ≠ "" → text = DataAnalysis.raw response) ∧
    (kickoff query = Ok None ∨
     kickoff query = Ok (Some (DataAnalysis.mkCrewOutput "")) →
     text = "Sorry, I couldn't analyze the data at this moment. Please try again.").
Proof.
  unfold DataAnalysis.invoke.
  destruct (kickoff query) as [[[raw]|]|e]; simpl.
  - case_decide as Hraw; simpl in Hraw; eexists; (split; [reflexivity|]).
    + split_and!.
      * intros e He. discriminate.
      * intros response [= <-] Hne. by destruct Hne.
      * done.
    + split_and!.
      * intros e He. discriminate.
      * by intros response [= <-] _.
      * intros [He|He]; [discriminate|]. injection He as ->. by destruct Hraw.
  - eexists; (split; [reflexivity|]). split_and!.
    + intros e He. discriminate.
    + intros response He. discriminate.
    + done.
  - eexists; (split; [reflexivity|]). split_and!.
    + by intros e' [= <-].
    + intros response He. discriminate.
    + intros [He|He]; discriminate.
Qed.

(** X27.  A synchronous send of a compatible request with a text query
    on which [agent.invoke] returns a result: the response carries a
    completed task whose message and whose one artifact are the text of
    the result, and the store holds that task for the id in place of the
    parameters of the request.  The task has no session and no status
    message. *)
Theorem crew_on_send_task_result
    (agent : Agent) (request : Request) (query : string) (rest : list Part)
    (result : AnalysisResult) (tasks : gmap string Stored) :
  are_modalities_compatible (acceptedOutputModes (params request))
    SUPPORTED_CONTENT_TYPES = true →
  parts (params_message (params request)) = TextPart query :: rest →
  invoke agent query = Ok result →
  let run := on_send_task are_modalities_compatible agent request tasks in
  ∃ t,
    run.1 = Ok (Result (request_id request) t) ∧
    run.2 !! params_id (params request) = Some (StoredTask t) ∧
    task_id t = params_id (params request) ∧
    task_status t = mkTaskStatus COMPLETED None ∧
    task_sessionId t = None ∧
    task_message t = Some (mkMessage "agent" [TextPart (result_content result)]) ∧
    task_artifacts t = Some [mkArtifact [TextPart (result_content result)]].
Proof.
  intros Hok Hparts Hinvoke run. unfold run.
  rewrite CrewAIRun.crew_on_send_task_run, CrewAIRun.crew_invoke_run by done.
  unfold _get_user_query. rewrite Hparts, Hinvoke. simpl.
  eexists. split_and!; [done|apply lookup_insert_eq|done..].
Qed.

(** X28.  With [DataAnalysisAgent] as its agent the manager never stores
    an error task for a text query: since [invoke] does not raise, every
    compatible request with a text query gets a completed task, also when
    the crew failed; the failure is then the text of the artifact. *)
Theorem crew_send_with_analysis_agent
    (kickoff : string → Outcome (option DataAnalysis.CrewOutput))
    (request : Request) (query : string) (rest : list Part)
    (tasks : gmap string Stored) :
  are_modalities_compatible (acceptedOutputModes (params request))
    SUPPORTED_CONTENT_TYPES = true →
  parts (params_message (params request)) = TextPart query :: rest →
  let run := on_send_task are_modalities_compatible (DataAnalysis.agent kickoff)
               request tasks in
  ∃ t text,
    run.1 = Ok (Result (request_id request) t) ∧
    run.2 !! params_id (params request) = Some (StoredTask t) ∧
    state (task_status t) = COMPLETED ∧
    task_artifacts t = Some [mkArtifact [TextPart text]] ∧
    DataAnalysis.invoke kickoff query = Ok (mkAnalysisResult text).
Proof.
  intros Hok Hparts run. unfold run.
  rewrite CrewAIRun.crew_on_send_task_run, CrewAIRun.crew_invoke_run by done.
  unfold _get_user_query. rewrite Hparts. simpl.
  unfold DataAnalysis.invoke.
  destruct (kickoff query) as [[[raw]|]|e]; simpl.
  - case_decide; eexists _, _; (split_and!; [done|apply lookup_insert_eq|done..]).
  - eexists _, _; (split_and!; [done|apply lookup_insert_eq|done..]).
  - eexists _, _; (split_and!; [done|apply lookup_insert_eq|done..]).
Qed.

(** X29.  Whatever the request and the agent, a synchronous send leaves
    the entries of all other ids as they were. *)
Theorem crew_send_leaves_other_tasks
    (agent : Agent) (request : Request) (tasks : gmap string Stored) (id' : string) :
  id' ≠ params_id (params request) →
  (on_send_task are_modalities_compatible agent request tasks).2 !! id' =
    tasks !! id'.
Proof.
  intros Hne.
  destruct (are_modalities_compatible (acceptedOutputModes (params request))
              SUPPORTED_CONTENT_TYPES) eqn:Hok.
  - rewrite CrewAIRun.crew_on_send_task_run, CrewAIRun.crew_invoke_run by done.
    destruct (_get_user_query (params request)) as [query|e]; simpl.
    + destruct (invoke agent query); simpl; by rewrite !lookup_insert_ne.
    + by rewrite lookup_insert_ne.
  - unfold on_send_task. by rewrite Hok.
Qed.

(** X30.  The sales tool: [analyze_sales_data] raises [ValueError] on an
    empty query and on no other; a failure of the completion is returned
    as the text "Error analyzing data: <message>".  The store data it
    sends is the built-in sample when the article was fetched and the
    empty dictionary otherwise: nothing of the response is in it. *)
Theorem sales_tool_outcomes
    (post : Outcome DataAnalysis.HttpResponse) (json_dumps : JSON → string)
    (completion : string → Outcome string) (query : string) :
  (query = "" →
   DataAnalysis.analyze_sales_data post json_dumps completion query =
     Raise (ValueError "Query cannot be empty")) ∧
  (query ≠ "" →
   ∃ prompt text,
     DataAnalysis.analyze_sales_data post json_dumps completion query = Ok text ∧
     (∀ content, completion prompt = Ok content → text = content) ∧
     (∀ e, completion prompt = Raise e → text = "Error analyzing data: " +:+ str e)) ∧
  (DataAnalysis.fetch_store_data post = DataAnalysis.STORE_DATA ∨
   DataAnalysis.fetch_store_data post = JObj []) ∧
  (∀ response, post = Ok response →
     DataAnalysis.status_code response ≠ 200%Z →
     DataAnalysis.fetch_store_data post = JObj []).
Proof.
  split_and!.
  - intros ->. done.
  - intros Hquery. unfold DataAnalysis.analyze_sales_data.
    rewrite decide_False by done.
    match goal with |- context [completion ?p] => exists p end.
    destruct (completion _) as [content|e]; eexists; split_and!; try done.
    + by intros content' [= <-].
    + by intros e' [= <-].
  - unfold DataAnalysis.fetch_store_data.
    repeat (case_match; auto).
  - intros response -> Hcode. unfold DataAnalysis.fetch_store_data.
    by rewrite decide_False.
Qed.

End Facts.

Lemma analysis_invoke_never_raises_witness :
  DataAnalysis.invoke (λ _, Raise unreachable) "top product?" =
    Ok (mkAnalysisResult "Error performing analysis: backend unreachable").
Proof.
  destruct (analysis_invoke_never_raises (λ _, Raise unreachable) "top product?")
    as (text & Hinvoke & Herror & _).
  rewrite Hinvoke. by rewrite (Herror unreachable).
Defined.

Lemma crew_on_send_task_result_witness :
  ∃ t,
    (on_send_task modalities_overlap
       (crew_agent (Ok (mkAnalysisResult "top product is X")))
       text_request ∅).1 = Ok (Result "req-1" t) ∧
    task_artifacts t = Some [mkArtifact [TextPart "top product is X"]].
Proof.
  destruct (crew_on_send_task_result modalities_overlap
              (crew_agent (Ok (mkAnalysisResult "top product is X")))
              text_request "customer 42" [] (mkAnalysisResult "top product is X") ∅)
    as (t & Hrun & _ & _ & _ & _ & _ & Hartifacts);
    [reflexivity | reflexivity | reflexivity |].
  by exists t.
Defined.

Lemma crew_send_with_analysis_agent_witness :
  ∃ t,
    (on_send_task modalities_overlap
       (DataAnalysis.agent (λ _, Raise unreachable)) text_request ∅).2
      !! "task-1" = Some (StoredTask t) ∧
    state (task_status t) = COMPLETED.
Proof.
  destruct (crew_send_with_analysis_agent modalities_overlap
              (λ _, Raise unreachable) text_request "customer 42" [] ∅)
    as (t & text & _ & Hget & Hstate & _); [reflexivity | reflexivity |].
  by exists t.
Defined.

Lemma crew_send_leaves_other_tasks_witness :
  (on_send_task modalities_overlap
     (crew_agent (Ok (mkAnalysisResult "top product is X")))
     text_request ∅).2 !! "task-2" = None.
Proof.
  rewrite (crew_send_leaves_other_tasks modalities_overlap
             (crew_agent (Ok (mkAnalysisResult "top product is X")))
             text_request ∅ "task-2"); [reflexivity|discriminate].
Defined.

Lemma sales_tool_outcomes_witness :
  DataAnalysis.analyze_sales_data (Raise unreachable) (λ _, "{}")
    (λ _, Raise unreachable) "" = Raise (ValueError "Query cannot be empty") ∧
  DataAnalysis.fetch_store_data
    (Ok (DataAnalysis.mkHttpResponse 404 (Raise unreachable))) = JObj [].
Proof.
  destruct (sales_tool_outcomes (Raise unreachable) (λ _, "{}")
              (λ _, Raise unreachable) "") as (Hempty & _).
  destruct (sales_tool_outcomes
              (Ok (DataAnalysis.mkHttpResponse 404 (Raise unreachable)))
              (λ _, "{}") (λ _, Raise unreachable) "") as (_ & _ & _ & Hcode).
  split; [exact (Hempty eq_refl)|].
  apply (Hcode _ eq_refl). discriminate.
Defined.

End DataAnalysisFacts.
